(** * einsum_vis: the shareable-URL encoder of [api_usage/compression.cpp]

    A shallow embedding of the functions of the file ([base64_encode],
    [compress_data], [url_encode], [create_shareable_url], [main]) and
    the properties their specification states.

    Conventions.
    - A [std::string] is a [list ascii]: a finite sequence of 8-bit chars.
    - An [unsigned char] value is a [Z] in [0, 256); a store into an
      [unsigned char] is written [to_uchar] (reduction modulo 256).
    - An [int] is 32 bits wide: a value stored into one is written
      [to_int] (two's complement wrap-around), as for the byte count
      [int in_len]; zlib's [uInt avail_in] is 32 bits and unsigned
      ([to_uInt]).
    - zlib is not part of the repository: the compression engine is a
      parameter ([ZlibEngine]) and what its manual promises is a
      hypothesis ([ZlibContract]). *)

From Stdlib Require Import ZArith List Ascii String Bool Lia.
Import ListNotations.
Local Open Scope Z_scope.

(** ** Strings and bytes *)

Definition std_string := list ascii.

(** A C string literal. *)
Definition lit (s : string) : std_string := list_ascii_of_string s.

(** [static_cast<unsigned char>(c)], and the read of an [unsigned char]. *)
Definition uchar (c : ascii) : Z := Z.of_N (N_of_ascii c).

(** The promotion of a [char] to [int]; [char] is signed on the targets
    the program is built for. *)
Definition char_to_int (c : ascii) : Z :=
  if uchar c <? 128 then uchar c else uchar c - 256.

(** The store of an [int] into an [unsigned char]. *)
Definition to_uchar (z : Z) : Z := z mod 256.

(** [int]: 32 bits, two's complement.  [to_int z] is what an [int]
    holds after [z] is stored into it: [z] itself when it fits, [z]
    wrapped modulo 2^32 when it does not. *)
Definition INT_MAX : Z := 2147483647.
Definition INT_MIN : Z := -2147483648.
Definition to_int (z : Z) : Z :=
  (z + 2147483648) mod 4294967296 - 2147483648.

(** The char with a given byte value. *)
Definition char_of (z : Z) : ascii := ascii_of_N (Z.to_N z).

(** [s[i]] on a string.  Reading past the end is undefined in C++; the
    model gives the NUL char there, which no table below contains. *)
Definition string_at (s : std_string) (i : Z) : ascii :=
  if (0 <=? i) && (i <? Z.of_nat (List.length s))
  then nth (Z.to_nat i) s zero else zero.

(** Fixed-size arrays of [unsigned char], read and written by index. *)
Definition array := list Z.

Definition aget (a : array) (i : Z) : Z := nth (Z.to_nat i) a 0.

Fixpoint aset_nat (a : array) (i : nat) (v : Z) : array :=
  match a, i with
  | [], _ => []
  | _ :: t, O => v :: t
  | h :: t, S k => h :: aset_nat t k v
  end.

Definition aset (a : array) (i : Z) (v : Z) : array :=
  if i <? 0 then a else aset_nat a (Z.to_nat i) v.

(** The values [lo, lo+1, ..., hi-1] a [for (j = lo; j < hi; j++)] visits. *)
Definition range (lo hi : Z) : list Z :=
  map (fun k => lo + Z.of_nat k) (seq 0 (Z.to_nat (hi - lo))).

(** ** Base64 encoder *)

Module Base64.

Definition base64_chars : std_string :=
  lit "ABCDEFGHIJKLMNOPQRSTUVWXYZabcdefghijklmnopqrstuvwxyz0123456789+/".

(** The four assignments to [char_array_4] (lines 27-30 and 43-45). *)
Definition slice0 (a3 : array) : Z :=
  to_uchar (Z.shiftr (Z.land (aget a3 0) 0xfc) 2).
Definition slice1 (a3 : array) : Z :=
  to_uchar (Z.shiftl (Z.land (aget a3 0) 0x03) 4
            + Z.shiftr (Z.land (aget a3 1) 0xf0) 4).
Definition slice2 (a3 : array) : Z :=
  to_uchar (Z.shiftl (Z.land (aget a3 1) 0x0f) 2
            + Z.shiftr (Z.land (aget a3 2) 0xc0) 6).
Definition slice3 (a3 : array) : Z :=
  to_uchar (Z.land (aget a3 2) 0x3f).

(** The local variables the [while] loop carries from one byte to the next. *)
Record loop_state := mk_loop_state {
  i : Z;
  char_array_3 : array;
  char_array_4 : array;
  ret : std_string
}.

(** [for (...; j < hi; j++) ret += base64_chars[char_array_4[j]]]. *)
Definition emit (a4 : array) (lo hi : Z) (r : std_string) : std_string :=
  fold_left (fun r j => r ++ [string_at base64_chars (aget a4 j)]) (range lo hi) r.

(** One iteration of [while (in_len--)], on the byte under
    [bytes_to_encode]. *)
Definition loop_body (b : ascii) (s : loop_state) : loop_state :=
  let a3 := aset (char_array_3 s) (i s) (uchar b) in
  let i1 := i s + 1 in
  if i1 =? 3 then
    let a4 := [slice0 a3; slice1 a3; slice2 a3; slice3 a3] in
    mk_loop_state 0 a3 a4 (emit a4 0 4 (ret s))
  else
    mk_loop_state i1 a3 (char_array_4 s) (ret s).

(** [while (in_len--) { ... }]: the loop goes on while the [int]
    counter [in_len] is not zero, and each turn counts it down by one
    and reads the byte under [bytes_to_encode], which then moves on.
    The count down is written with the wrap-around of the machine.
    The counter never exceeds the number of bytes left (lemma
    [loop_feed]), so the case of no byte left under a non-zero counter
    is not reached from [base64_encode]. *)
Fixpoint loop (bytes_to_encode : std_string) (in_len : Z) (s : loop_state)
  : loop_state :=
  if in_len =? 0 then s
  else
    match bytes_to_encode with
    | [] => s
    | b :: rest => loop rest (to_int (in_len - 1)) (loop_body b s)
    end.

(** The same loop where the C++ standard defines it: [None] when the
    count down of [in_len] would overflow ([in_len] is [INT_MIN]) or a
    byte would be read past the end of the input (the latter is not
    reached from [base64_encode_strict]: the overflow comes first). *)
Fixpoint loop_strict (bytes_to_encode : std_string) (in_len : Z)
         (s : loop_state) : option loop_state :=
  if in_len =? 0 then Some s
  else if in_len =? INT_MIN then None
  else
    match bytes_to_encode with
    | [] => None
    | b :: rest => loop_strict rest (in_len - 1) (loop_body b s)
    end.

(** [if (i) { ... }] after the loop (lines 38-52). *)
Definition flush (s : loop_state) : std_string :=
  if i s =? 0 then ret s
  else
    let a3 := fold_left (fun a j => aset a j 0) (range (i s) 3) (char_array_3 s) in
    let a4 := aset (aset (aset (char_array_4 s) 0 (slice0 a3)) 1 (slice1 a3))
                   2 (slice2 a3) in
    let r := emit a4 0 (i s + 1) (ret s) in
    r ++ repeat "="%char (Z.to_nat (3 - i s)).

(** The arrays are not initialised in the source; every slot is written
    before it is read, so their first contents are immaterial (see
    [flush_groups], which holds from any contents) and taken as zeros. *)
Definition init_state : loop_state :=
  mk_loop_state 0 [0; 0; 0] [0; 0; 0; 0] [].

(** [int in_len = input.length();] stores the length into an [int]. *)
Definition base64_encode (input : std_string) : std_string :=
  let in_len := to_int (Z.of_nat (List.length input)) in
  flush (loop input in_len init_state).

Definition base64_encode_strict (input : std_string) : option std_string :=
  let in_len := to_int (Z.of_nat (List.length input)) in
  match loop_strict input in_len init_state with
  | Some s => Some (flush s)
  | None => None
  end.

End Base64.


(** ** URL percent-encoder *)

Module Url.

(** [isalnum] of <cctype> in the "C" locale, the locale of a program
    that never calls [setlocale]: true on the ASCII digits and letters,
    false on every other [int], the negative ones of a signed [char]
    with its high bit set included. *)
Definition isalnum (c : Z) : bool :=
  ((48 <=? c) && (c <=? 57)) || ((65 <=? c) && (c <=? 90))
  || ((97 <=? c) && (c <=? 122)).

Definition hex_digits : std_string := lit "0123456789ABCDEF".

(** The test of line 103, on the promoted [char]. *)
Definition passes (c : ascii) : bool :=
  isalnum (char_to_int c)
  || (char_to_int c =? char_to_int "-")
  || (char_to_int c =? char_to_int "_")
  || (char_to_int c =? char_to_int ".")
  || (char_to_int c =? char_to_int "~").

(** The body of [for (char c : str)]. *)
Definition encode_char (encoded : std_string) (c : ascii) : std_string :=
  if passes c then encoded ++ [c]
  else
    let encoded := encoded ++ ["%"%char] in
    let encoded := encoded ++ [string_at hex_digits (Z.shiftr (uchar c) 4)] in
    encoded ++ [string_at hex_digits (Z.land (uchar c) 15)].

Definition url_encode (str : std_string) : std_string :=
  fold_left encode_char str [].

End Url.

(** ** Exceptions *)

(** A call either returns or throws [std::runtime_error(what)]; the
    only throw sites of the file are in [compress_data]. *)
Inductive outcome (A : Type) : Type :=
| Returned (a : A)
| Thrown (what : string).
Arguments Returned {A} a.
Arguments Thrown {A} what.

(** A loop driven by the engine may run for ever: a computation takes a
    bound on the iterations of a loop and is [None] past it. *)
Definition comp (A : Type) : Type := option (outcome A).

Definition bind {A B : Type} (c : comp A) (k : A -> comp B) : comp B :=
  match c with
  | None => None
  | Some (Thrown what) => Some (Thrown what)
  | Some (Returned a) => k a
  end.

Notation "'call' x <- c 'in' k" := (bind c (fun x => k))
  (at level 10, x name, c at level 100, k at level 200).

(** ** The compression engine *)

Module Zlib.

(** Constants of zlib.h. *)
Definition Z_OK : Z := 0.
Definition Z_STREAM_END : Z := 1.
Definition Z_STREAM_ERROR : Z := -2.
Definition Z_BUF_ERROR : Z := -5.
Definition Z_FINISH : Z := 4.
Definition Z_BEST_COMPRESSION : Z := 9.
Definition Z_DEFLATED : Z := 8.
Definition MAX_WBITS : Z := 15.
Definition Z_DEFAULT_STRATEGY : Z := 0.

(** [uInt]: 32 bits, unsigned. *)
Definition to_uInt (z : Z) : Z := z mod 4294967296.

(** The fields of [z_stream] the program touches.  [next_in] is the
    input from the pointer on, [state] the engine's own part ([None] is
    the null pointer [memset] leaves).  [next_out] is always the start
    of the caller's buffer when [deflate] is entered, so the bytes
    [deflate] stores there are part of its result. *)
Record z_stream (internal : Type) : Type := mk_z_stream {
  next_in : std_string;
  avail_in : Z;
  avail_out : Z;
  total_out : Z;
  state : option internal
}.
Arguments mk_z_stream {internal}.
Arguments next_in {internal}.
Arguments avail_in {internal}.
Arguments avail_out {internal}.
Arguments total_out {internal}.
Arguments state {internal}.

(** The three entry points of zlib the program calls.  [deflate zs flush]
    answers its return code, the bytes it stored from [next_out] on, and
    the stream after the call. *)
Record ZlibEngine : Type := {
  internal_state : Type;
  deflateInit2 :
    z_stream internal_state -> Z -> Z -> Z -> Z -> Z ->
    Z * z_stream internal_state;
  deflate :
    z_stream internal_state -> Z -> Z * std_string * z_stream internal_state;
  deflateEnd : z_stream internal_state -> Z * z_stream internal_state
}.

(** The type of the program's [z_stream zs] over an engine. *)
Definition stream_of (E : ZlibEngine) : Type := z_stream (internal_state E).

Section Compressor.
Context (E : ZlibEngine).

(** [memset(&zs, 0, sizeof(zs))]. *)
Definition zero_stream : stream_of E := mk_z_stream [] 0 0 0 None.

(** [zs.next_in = data.data(); zs.avail_in = data.size();] where
    [avail_in] is a [uInt]: the size is stored modulo 2^32. *)
Definition set_input (zs : stream_of E) (data : std_string) : stream_of E :=
  mk_z_stream data (to_uInt (Z.of_nat (List.length data))) (avail_out zs)
              (total_out zs) (state zs).

(** [zs.next_out = outbuffer; zs.avail_out = sizeof(outbuffer);] *)
Definition set_output (zs : stream_of E) (size : Z) : stream_of E :=
  mk_z_stream (next_in zs) (avail_in zs) size (total_out zs) (state zs).

Definition outbuffer_size : Z := 32768.

(** The buffer after [deflate] stored [written] at its start. *)
Definition store (outbuffer written : std_string) : std_string :=
  written ++ skipn (List.length written) outbuffer.

(** The [do ... while (ret == Z_OK)] of lines 74-85, at most [fuel]
    iterations of it. *)
Fixpoint deflate_loop (fuel : nat) (zs : stream_of E)
         (outbuffer compressed : std_string)
  : option (Z * stream_of E * std_string) :=
  match fuel with
  | O => None
  | S fuel' =>
    let zs := set_output zs outbuffer_size in
    let '(ret, written, zs) := deflate E zs Z_FINISH in
    let outbuffer := store outbuffer written in
    let size := Z.of_nat (List.length compressed) in
    let compressed :=
      if size <? total_out zs
      then compressed ++ firstn (Z.to_nat (total_out zs - size)) outbuffer
      else compressed in
    if ret =? Z_OK then deflate_loop fuel' zs outbuffer compressed
    else Some (ret, zs, compressed)
  end.

(** [char outbuffer[32768]] is not initialised; its first contents are
    taken as NUL chars ([deflate_loop_run] holds from any contents). *)
Definition outbuffer0 : std_string := repeat zero (Z.to_nat outbuffer_size).

Definition compress_data (fuel : nat) (data : std_string) : comp std_string :=
  let zs := zero_stream in
  let '(rc, zs) :=
    deflateInit2 E zs Z_BEST_COMPRESSION Z_DEFLATED (Z.lor MAX_WBITS 16) 8
                 Z_DEFAULT_STRATEGY in
  if negb (rc =? Z_OK) then Some (Thrown "deflateInit failed")
  else
    let zs := set_input zs data in
    match deflate_loop fuel zs outbuffer0 [] with
    | None => None
    | Some (ret, zs, compressed) =>
      let '(_, _) := deflateEnd E zs in
      if negb (ret =? Z_STREAM_END) then Some (Thrown "compression failed")
      else Some (Returned compressed)
    end.

End Compressor.

End Zlib.

(** ** URL builder *)

Module Builder.
Import Base64 Url Zlib.

Definition base_url : std_string :=
  lit "https://seriousseal.github.io/tensor_expressions_webapp/".

(** The double-quote char, the one char of the literal that wraps the
    expression. *)
Definition dquote : ascii := "034"%char.

Definition create_shareable_url (E : ZlibEngine) (fuel : nat)
           (expression sizes : std_string) : comp std_string :=
  let json_expr := [dquote] ++ expression ++ [dquote] in
  let json_sizes := lit "[" ++ sizes ++ lit "]" in
  call compressed_expr <- compress_data E fuel json_expr in
  call compressed_sizes <- compress_data E fuel json_sizes in
  let base64_expr := url_encode (base64_encode compressed_expr) in
  let base64_sizes := url_encode (base64_encode compressed_sizes) in
  Some (Returned
    (lit "https://seriousseal.github.io/tensor_expressions_webapp/?e="
     ++ base64_expr ++ lit "&s=" ++ base64_sizes)).

End Builder.

(** ** The program *)

Module Program.
Import Zlib Builder.

(** What a run leaves behind: the text on standard output, the text on
    standard error and the exit status. *)
Record run : Type := mk_run {
  out : std_string;
  err : std_string;
  status : Z
}.

(** [std::endl] writes a line feed. *)
Definition endl : std_string := ["010"%char].

(** The two literals of lines 135 and 136. *)
Definition expression : std_string := lit
  "[41,10,11],[[9,10,24,25],[[[63,87,11],[81,87,24,25]->[11,24,25,63,81]],[[86,65,63],[[[[77,65,53,70],[70,75,81]->[53,65,75,77,81]],[[53,83,61],[61,75,22,23]->[22,23,53,75,83]]->[22,23,65,77,81,83]],[[[47,8,9],[7,8,22,23]->[7,9,22,23,47]],[[[31,40,41],[[39,40,46,47],[46,6,7]->[6,7,39,40,47]]->[6,7,31,39,41,47]],[[[[54,60,66],[[[59,76,77],[82,76,52,54]->[52,54,59,77,82]],[[85,57,82],[[64,78,85,59],[[79,78,86],[[80,79],[80,58,64]->[58,64,79]]->[58,64,78,86]]->[58,59,85,86]]->[57,58,59,82,86]]->[52,54,57,58,77,86]]->[52,57,58,60,66,77,86]],[[[52,84,71],[[45,4,5],[[3,4,18,19],[71,60,18,19]->[3,4,60,71]]->[3,5,45,60,71]]->[3,5,45,52,60,84]],[[[[33,38,39],[37,38,44,45]->[33,37,39,44,45]],[[32,36,37],[[29,30,32,33],[[26,28,29],[[26,27],[27,30,31]->[26,30,31]]->[28,29,30,31]]->[28,31,32,33]]->[28,31,33,36,37]]->[28,31,36,39,44,45]],[[44,2,3],[[[1,2,16,17],[74,84,16,17]->[1,2,74,84]],[[[28,34,35],[[35,36,42,43],[43,0,1]->[0,1,35,36,42]]->[0,1,28,34,36,42]],[[[42,50,51],[51,0,14,15]->[0,14,15,42,50]],[[[[68,69,12,13],[[58,55,67],[55,48,68]->[48,58,67,68]]->[12,13,48,58,67,69]],[[[67,57,62,72],[72,56,74]->[56,57,62,67,74]],[[62,69,73],[73,56,14,15]->[14,15,56,62,69]]->[14,15,57,67,69,74]]->[12,13,14,15,48,57,58,74]],[[34,48,49],[49,50,12,13]->[12,13,34,48,50]]->[14,15,34,50,57,58,74]]->[0,34,42,57,58,74]]->[1,28,36,57,58,74]]->[2,28,36,57,58,84]]->[3,28,36,44,57,58,84]]->[3,31,39,45,57,58,84]]->[5,31,39,52,57,58,60]]->[5,31,39,66,77,86]],[[5,6,20,21],[66,83,20,21]->[5,6,66,83]]->[6,31,39,77,83,86]]->[7,41,47,77,83,86]]->[9,22,23,41,77,83,86]]->[9,41,65,81,86]]->[9,41,63,81]]->[9,11,24,25,41]]->[10,11,25,41]]->[11,25]".

Definition index_sizes : std_string := lit
  "2, 2, 2, 2, 2, 2, 2, 2, 2, 2, 2, 2, 2, 2, 2, 2, 2, 2, 2, 2, 2, 2, 2, 2, 2, 2, 2, 2, 2, 2, 2, 2, 2, 2, 2, 2, 2, 2, 2, 2, 2, 2, 2, 2, 2, 2, 2, 2, 2, 2, 2, 2, 2, 2, 2, 2, 2, 2, 2, 2, 2, 2, 2, 2, 2, 2, 2, 2, 2, 2, 2, 2, 2, 2, 2, 2, 2, 2, 2, 2, 2, 2, 2, 2, 2, 2, 2, 2".

(** [main]: the [try] block returns 0 after the line on [std::cout];
    the handler of [std::exception] writes the line on [std::cerr] and
    returns 1. *)
Definition main (E : ZlibEngine) (fuel : nat) : option run :=
  match create_shareable_url E fuel expression index_sizes with
  | None => None
  | Some (Returned url) =>
    Some (mk_run (lit "Shareable URL: " ++ url ++ endl) [] 0)
  | Some (Thrown what) =>
    Some (mk_run [] (lit "Error: " ++ lit what ++ endl) 1)
  end.

End Program.

(** ** Base64: the encoder as a function of the 3-byte groups *)

Module Base64Spec.
Import Base64.

Definition sym (n : Z) : ascii := string_at base64_chars n.

(** The output for a full group, and for a last group of one or two bytes. *)
Definition quad (a b c : ascii) : std_string :=
  let a3 := [uchar a; uchar b; uchar c] in
  [sym (slice0 a3); sym (slice1 a3); sym (slice2 a3); sym (slice3 a3)].

Definition tail1 (a : ascii) : std_string :=
  let a3 := [uchar a; 0; 0] in
  [sym (slice0 a3); sym (slice1 a3); "="%char; "="%char].

Definition tail2 (a b : ascii) : std_string :=
  let a3 := [uchar a; uchar b; 0] in
  [sym (slice0 a3); sym (slice1 a3); sym (slice2 a3); "="%char].

Fixpoint groups (l : std_string) : std_string :=
  match l with
  | [] => []
  | [a] => tail1 a
  | [a; b] => tail2 a b
  | a :: b :: c :: rest => quad a b c ++ groups rest
  end.

(** The loop body over a run of bytes, one after the other. *)
Definition feed (bytes : std_string) (s : loop_state) : loop_state :=
  fold_left (fun s b => loop_body b s) bytes s.

(** The bytes the loop reads: as many as the length stored in a 32-bit
    counter says. *)
Definition bytes_read (input : std_string) : std_string :=
  firstn (Z.to_nat (Z.of_nat (List.length input) mod 4294967296)) input.

End Base64Spec.

(** A run of [n] copies of one char, for inputs too long to write out. *)
Definition long_run (c : ascii) (n : Z) : std_string := repeat c (Z.to_nat n).

(** ** Decoders and character classes of the specification *)

(** The position of a char in a table. *)
Fixpoint index_of (c : ascii) (table : std_string) (k : Z) : option Z :=
  match table with
  | [] => None
  | h :: t => if Ascii.eqb c h then Some k else index_of c t (k + 1)
  end.

(** The ceiling of [n / d]. *)
Definition ceil_div (n d : Z) : Z := (n + d - 1) / d.

Module Base64Decode.
Import Base64.

(** The 6-bit value of a char of the alphabet. *)
Definition value_of (c : ascii) : option Z := index_of c base64_chars 0.

Definition pad : ascii := "="%char.

(** The three bytes four 6-bit values carry. *)
Definition byte0 (v0 v1 : Z) : ascii := char_of ((v0 * 4 + v1 / 16) mod 256).
Definition byte1 (v1 v2 : Z) : ascii := char_of ((v1 * 16 + v2 / 4) mod 256).
Definition byte2 (v2 v3 : Z) : ascii := char_of ((v2 * 64 + v3) mod 256).

(** A quantum without padding. *)
Definition decode_full (c0 c1 c2 c3 : ascii) : option std_string :=
  match value_of c0, value_of c1, value_of c2, value_of c3 with
  | Some v0, Some v1, Some v2, Some v3 =>
    Some [byte0 v0 v1; byte1 v1 v2; byte2 v2 v3]
  | _, _, _, _ => None
  end.

(** The last quantum, which may end in one or two pad chars. *)
Definition decode_last (c0 c1 c2 c3 : ascii) : option std_string :=
  if Ascii.eqb c3 pad then
    if Ascii.eqb c2 pad then
      match value_of c0, value_of c1 with
      | Some v0, Some v1 => Some [byte0 v0 v1]
      | _, _ => None
      end
    else
      match value_of c0, value_of c1, value_of c2 with
      | Some v0, Some v1, Some v2 => Some [byte0 v0 v1; byte1 v1 v2]
      | _, _, _ => None
      end
  else decode_full c0 c1 c2 c3.

(** The standard decoder (RFC 4648, section 4): quanta of four chars,
    padding in the last one only, anything else refused. *)
Fixpoint base64_decode (text : std_string) : option std_string :=
  match text with
  | [] => Some []
  | c0 :: c1 :: c2 :: c3 :: rest =>
    match rest with
    | [] => decode_last c0 c1 c2 c3
    | _ :: _ =>
      match decode_full c0 c1 c2 c3, base64_decode rest with
      | Some bytes, Some more => Some (bytes ++ more)
      | _, _ => None
      end
    end
  | _ => None
  end.

End Base64Decode.

Module UrlSpec.
Import Url.

(** The allow-list in the specification's words: an ASCII letter, an
    ASCII digit, or one of [- _ . ~]. *)
Definition ascii_letter (c : ascii) : bool :=
  ((uchar "A" <=? uchar c) && (uchar c <=? uchar "Z"))
  || ((uchar "a" <=? uchar c) && (uchar c <=? uchar "z")).

Definition ascii_digit (c : ascii) : bool :=
  (uchar "0" <=? uchar c) && (uchar c <=? uchar "9").

Definition unreserved (c : ascii) : bool :=
  ascii_letter c || ascii_digit c
  || Ascii.eqb c "-" || Ascii.eqb c "_" || Ascii.eqb c "." || Ascii.eqb c "~".

(** An uppercase hexadecimal digit, by its value. *)
Definition hex_digit (d : Z) : ascii :=
  if d <? 10 then char_of (uchar "0" + d) else char_of (uchar "A" + (d - 10)).

(** [%XX]: the two-digit uppercase hexadecimal value of a byte. *)
Definition percent (c : ascii) : std_string :=
  ["%"%char; hex_digit (uchar c / 16); hex_digit (uchar c mod 16)].

(** The encoder, char by char, as the specification words it. *)
Definition encode_one (c : ascii) : std_string :=
  if unreserved c then [c] else percent c.

(** A percent-decoder. *)
Definition hex_value (c : ascii) : option Z := index_of c hex_digits 0.

Fixpoint url_decode (text : std_string) : option std_string :=
  match text with
  | [] => Some []
  | c :: rest =>
    if Ascii.eqb c "%" then
      match rest with
      | h :: l :: rest' =>
        match hex_value h, hex_value l, url_decode rest' with
        | Some x, Some y, Some more => Some (char_of (16 * x + y) :: more)
        | _, _, _ => None
        end
      | _ => None
      end
    else
      match url_decode rest with
      | Some more => Some (c :: more)
      | None => None
      end
  end.

End UrlSpec.

(** ** What the zlib manual promises *)

Module ZlibSpec.
Import Zlib.

(** A gzip member (RFC 1952) starts with the bytes 1f 8b and the
    compression method 8, and holds at least the 10 bytes of the header
    and the 8 bytes of the trailer. *)
Definition gzip_framed (s : std_string) : bool :=
  match s with
  | id1 :: id2 :: cm :: _ =>
    (uchar id1 =? 0x1f) && (uchar id2 =? 0x8b) && (uchar cm =? 8)
    && (18 <=? Z.of_nat (List.length s))
  | _ => false
  end.

(** Modelled from the spec: zlib ([deflateInit2], [deflate],
    [deflateEnd]) is not in the repository.  The contract is what the
    specification says of the compressor (a gzip-framed stream that
    gzip-decompresses to the input, all input consumed at the end of
    the stream) in the terms of zlib's manual for a stream driven with
    [Z_FINISH]; the input of the engine is the [avail_in] bytes at
    [next_in].  [pending zs] is the output the engine still owes for
    the input it was given, [gunzip] the decoder of the receiving
    side. *)
Record ZlibContract (E : ZlibEngine) : Type := {
  pending : stream_of E -> std_string;
  gunzip : std_string -> option std_string;
  (** [deflateInit2] starts the count of the output at zero. *)
  init_total_out :
    forall zs level method windowBits memLevel strategy zs',
      deflateInit2 E zs level method windowBits memLevel strategy = (Z_OK, zs') ->
      total_out zs' = 0;
  (** 16 added to [windowBits] asks for a gzip header and trailer around
      the compressed data; for the [n] bytes at [next_in] that
      [avail_in] announces, the member decodes to these bytes. *)
  init_gzip :
    forall zs level windowBits memLevel strategy zs' input n,
      deflateInit2 E zs level Z_DEFLATED windowBits memLevel strategy = (Z_OK, zs') ->
      16 + 8 <= windowBits <= 16 + MAX_WBITS ->
      0 <= n <= Z.of_nat (List.length input) ->
      let zs_in :=
        mk_z_stream input n (avail_out zs') (total_out zs') (state zs') in
      gzip_framed (pending zs_in) = true /\
      gunzip (pending zs_in) = Some (firstn (Z.to_nat n) input);
  (** [deflate] stores at most [avail_out] bytes and counts them. *)
  deflate_writes :
    forall zs ret written zs',
      deflate E zs Z_FINISH = (ret, written, zs') ->
      0 <= avail_out zs ->
      Z.of_nat (List.length written) <= avail_out zs /\
      total_out zs' = total_out zs + Z.of_nat (List.length written);
  (** [Z_OK] on [Z_FINISH]: the output space ran out. *)
  deflate_ok :
    forall zs ret written zs',
      deflate E zs Z_FINISH = (ret, written, zs') ->
      ret = Z_OK -> Z.of_nat (List.length written) = avail_out zs;
  (** What is stored is the next part of what is owed. *)
  deflate_stream :
    forall zs ret written zs',
      deflate E zs Z_FINISH = (ret, written, zs') ->
      ret = Z_OK \/ ret = Z_STREAM_END ->
      written ++ pending zs' = pending zs;
  (** [Z_STREAM_END]: all input consumed and all output produced. *)
  deflate_end :
    forall zs ret written zs',
      deflate E zs Z_FINISH = (ret, written, zs') ->
      ret = Z_STREAM_END -> pending zs' = [] /\ avail_in zs' = 0;
  (** Output space does not change what is owed. *)
  pending_set_output :
    forall zs size, pending (set_output E zs size) = pending zs
}.
Arguments pending {E}.
Arguments gunzip {E}.

(** The engine on its own, driven as the program drives it: [Z_FINISH]
    and a fresh buffer of [outbuffer_size] bytes at every call, until the
    answer is not [Z_OK].  The result is the chunks stored call by call,
    the last return code and the last stream. *)
Fixpoint engine_run (E : ZlibEngine) (fuel : nat) (zs : stream_of E)
  : option (list std_string * Z * stream_of E) :=
  match fuel with
  | O => None
  | S fuel' =>
    let '(ret, written, zs') := deflate E (set_output E zs outbuffer_size) Z_FINISH in
    if ret =? Z_OK then
      match engine_run E fuel' zs' with
      | Some (chunks, last, zs'') => Some (written :: chunks, last, zs'')
      | None => None
      end
    else Some ([written], ret, zs')
  end.

(** The return code and stream of [deflateInit2] as [compress_data] calls
    it. *)
Definition init_call (E : ZlibEngine) : Z * stream_of E :=
  deflateInit2 E (zero_stream E) Z_BEST_COMPRESSION Z_DEFLATED
               (Z.lor MAX_WBITS 16) 8 Z_DEFAULT_STRATEGY.

End ZlibSpec.

(** ** A reference engine *)

(** An engine that meets [ZlibContract]: it copies the input between a
    gzip header and an 8-byte trailer and hands the result out as output
    space allows.  It stands for zlib only as far as the contract goes. *)
Module RefEngine.
Import Zlib ZlibSpec.

Record ref_state : Type := mk_ref_state {
  wrap : Z;
  queue : option std_string
}.

Definition gzip_header : std_string :=
  map char_of [0x1f; 0x8b; 8; 0; 0; 0; 0; 0; 2; 3].

Definition le32 (n : Z) : std_string :=
  map char_of [n mod 256; (n / 256) mod 256; (n / 65536) mod 256;
               (n / 16777216) mod 256].

Definition member (windowBits : Z) (data : std_string) : std_string :=
  if 16 <=? windowBits
  then gzip_header ++ data ++ le32 0 ++ le32 (Z.of_nat (List.length data))
  else data.

Definition ref_gunzip (s : std_string) : option std_string :=
  if gzip_framed s
  then Some (firstn (List.length s - 18) (skipn 10 s))
  else None.

Definition owed (zs : z_stream ref_state) : std_string :=
  match state zs with
  | None => []
  | Some st =>
    match queue st with
    | Some q => q
    | None => member (wrap st) (firstn (Z.to_nat (avail_in zs)) (next_in zs))
    end
  end.

Definition ref_init (zs : z_stream ref_state)
           (level method windowBits memLevel strategy : Z)
  : Z * z_stream ref_state :=
  if (method =? Z_DEFLATED) && (0 <=? level) && (level <=? 9)
     && (1 <=? memLevel) && (memLevel <=? 9)
     && (0 <=? strategy) && (strategy <=? 4)
     && (((8 <=? windowBits) && (windowBits <=? 15))
         || ((24 <=? windowBits) && (windowBits <=? 31)))
  then (Z_OK, mk_z_stream (next_in zs) (avail_in zs) (avail_out zs) 0
                          (Some (mk_ref_state windowBits None)))
  else (Z_STREAM_ERROR, zs).

Definition ref_deflate (zs : z_stream ref_state) (flush : Z)
  : Z * std_string * z_stream ref_state :=
  match state zs with
  | None => (Z_STREAM_ERROR, [], zs)
  | Some st =>
    if avail_out zs <=? 0 then (Z_BUF_ERROR, [], zs)
    else
      let q := owed zs in
      let n := Z.to_nat (avail_out zs) in
      let written := firstn n q in
      let zs' :=
        mk_z_stream (skipn (Z.to_nat (avail_in zs)) (next_in zs)) 0
                    (avail_out zs - Z.of_nat (List.length written))
                    (total_out zs + Z.of_nat (List.length written))
                    (Some (mk_ref_state (wrap st) (Some (skipn n q)))) in
      (if Z.of_nat (List.length q) <? avail_out zs then Z_STREAM_END else Z_OK,
       written, zs')
  end.

Definition ref_end (zs : z_stream ref_state) : Z * z_stream ref_state :=
  match state zs with
  | None => (Z_STREAM_ERROR, zs)
  | Some _ => (Z_OK, mk_z_stream (next_in zs) (avail_in zs) (avail_out zs)
                                 (total_out zs) None)
  end.

Definition engine : ZlibEngine :=
  Build_ZlibEngine ref_state ref_init ref_deflate ref_end.

End RefEngine.

(** ** The text stages taken together *)

Module Transport.
Import Base64 Base64Decode Url UrlSpec Zlib ZlibSpec.

(** The three chars of base64 text that [url_encode] escapes. *)
Definition b64_escape (c : ascii) : std_string :=
  if Ascii.eqb c "+" then lit "%2B"
  else if Ascii.eqb c "/" then lit "%2F"
  else if Ascii.eqb c "=" then lit "%3D"
  else [c].

(** The number of pad chars after [n] input bytes. *)
Definition pad_count (n : nat) : nat := ((3 - n mod 3) mod 3)%nat.

(** The receiver's way back through the two text stages. *)
Definition text_decode (t : std_string) : option std_string :=
  match url_decode t with
  | Some text => base64_decode text
  | None => None
  end.

(** The receiver's way back from a segment of the URL to the payload. *)
Definition segment_decode {E : ZlibEngine} (C : ZlibContract E)
           (t : std_string) : option std_string :=
  match text_decode t with
  | Some bytes => gunzip C bytes
  | None => None
  end.

End Transport.

(** ** The encoders on a few inputs *)

Example base64_hello :
  Base64.base64_encode (lit "hello world") = lit "aGVsbG8gd29ybGQ=".
Proof. reflexivity. Qed.

Example base64_high_bytes :
  Base64.base64_encode (map char_of [255; 254; 253; 0]) = lit "//79AA==".
Proof. reflexivity. Qed.

Example url_encode_high_byte :
  Url.url_encode [char_of 200; "~"%char; " "%char] = lit "%C8~%20".
Proof. reflexivity. Qed.
(** ** Facts on bytes, tables and ranges *)

Ltac all_bytes c := destruct c as [[] [] [] [] [] [] [] []].

(** Linear arithmetic with quotients and remainders by constants. *)
Ltac divlia := Z.div_mod_to_equations; lia.

Lemma uchar_range c : 0 <= uchar c < 256.
Proof. all_bytes c; cbv; split; congruence. Qed.

Lemma char_of_uchar c : char_of (uchar c) = c.
Proof.
  unfold char_of, uchar. rewrite N2Z.id. apply ascii_N_embedding.
Qed.

Lemma in_range lo hi n : lo <= n < hi -> In n (range lo hi).
Proof.
  intro H. unfold range. apply in_map_iff.
  exists (Z.to_nat (n - lo)). split; [lia|].
  apply in_seq. lia.
Qed.

(** A property checked on every value of a range holds on the range. *)
Lemma range_forallb (f : Z -> bool) lo hi :
  forallb f (range lo hi) = true -> forall n, lo <= n < hi -> f n = true.
Proof.
  intros H n Hn. rewrite forallb_forall in H. apply H, in_range, Hn.
Qed.

Section BitSlices.
Import Base64.

Lemma hi6 a : Z.shiftr (Z.land (uchar a) 0xfc) 2 = uchar a / 4.
Proof. all_bytes a; reflexivity. Qed.
Lemma lo2 a : Z.shiftl (Z.land (uchar a) 0x03) 4 = (uchar a mod 4) * 16.
Proof. all_bytes a; reflexivity. Qed.
Lemma hi4 a : Z.shiftr (Z.land (uchar a) 0xf0) 4 = uchar a / 16.
Proof. all_bytes a; reflexivity. Qed.
Lemma lo4 a : Z.shiftl (Z.land (uchar a) 0x0f) 2 = (uchar a mod 16) * 4.
Proof. all_bytes a; reflexivity. Qed.
Lemma hi2 a : Z.shiftr (Z.land (uchar a) 0xc0) 6 = uchar a / 64.
Proof. all_bytes a; reflexivity. Qed.
Lemma lo6 a : Z.land (uchar a) 0x3f = uchar a mod 64.
Proof. all_bytes a; reflexivity. Qed.

(** The 6-bit slices of a group, as quotients and remainders. *)
Lemma slice0_full a y z : slice0 [uchar a; y; z] = uchar a / 4.
Proof.
  unfold slice0, to_uchar. change (aget [uchar a; y; z] 0) with (uchar a).
  rewrite hi6. pose proof (uchar_range a). apply Z.mod_small. divlia.
Qed.

Lemma slice1_full a b z :
  slice1 [uchar a; uchar b; z] = (uchar a mod 4) * 16 + uchar b / 16.
Proof.
  unfold slice1, to_uchar.
  change (aget [uchar a; uchar b; z] 0) with (uchar a).
  change (aget [uchar a; uchar b; z] 1) with (uchar b).
  rewrite lo2, hi4. pose proof (uchar_range a). pose proof (uchar_range b).
  apply Z.mod_small. divlia.
Qed.

Lemma slice1_pad a z : slice1 [uchar a; 0; z] = (uchar a mod 4) * 16.
Proof.
  unfold slice1, to_uchar.
  change (aget [uchar a; 0; z] 0) with (uchar a).
  change (aget [uchar a; 0; z] 1) with 0.
  rewrite lo2. change (Z.shiftr (Z.land 0 240) 4) with 0.
  rewrite Z.add_0_r. pose proof (uchar_range a). apply Z.mod_small. divlia.
Qed.

Lemma slice2_full x b c :
  slice2 [x; uchar b; uchar c] = (uchar b mod 16) * 4 + uchar c / 64.
Proof.
  unfold slice2, to_uchar.
  change (aget [x; uchar b; uchar c] 1) with (uchar b).
  change (aget [x; uchar b; uchar c] 2) with (uchar c).
  rewrite lo4, hi2. pose proof (uchar_range b). pose proof (uchar_range c).
  apply Z.mod_small. divlia.
Qed.

Lemma slice2_pad x b : slice2 [x; uchar b; 0] = (uchar b mod 16) * 4.
Proof.
  unfold slice2, to_uchar.
  change (aget [x; uchar b; 0] 1) with (uchar b).
  change (aget [x; uchar b; 0] 2) with 0.
  rewrite lo4. change (Z.shiftr (Z.land 0 192) 6) with 0.
  rewrite Z.add_0_r. pose proof (uchar_range b). apply Z.mod_small. divlia.
Qed.

Lemma slice3_full x y c : slice3 [x; y; uchar c] = uchar c mod 64.
Proof.
  unfold slice3, to_uchar. change (aget [x; y; uchar c] 2) with (uchar c).
  rewrite lo6. pose proof (uchar_range c). apply Z.mod_small. divlia.
Qed.

End BitSlices.
(** ** The loop computes the groups *)

Section LoopGroups.
Import Base64 Base64Spec.

Lemma list_ind3 (A : Type) (P : list A -> Prop) :
  P [] -> (forall a, P [a]) -> (forall a b, P [a; b]) ->
  (forall a b c l, P l -> P (a :: b :: c :: l)) ->
  forall l, P l.
Proof.
  intros H0 H1 H2 H3.
  fix IH 1. intros [|a [|b [|c l]]].
  - exact H0.
  - apply H1.
  - apply H2.
  - apply H3, IH.
Qed.

Lemma loop_body_0 b x y z a4 r :
  loop_body b (mk_loop_state 0 [x; y; z] a4 r) =
  mk_loop_state 1 [uchar b; y; z] a4 r.
Proof. reflexivity. Qed.

Lemma loop_body_1 b x y z a4 r :
  loop_body b (mk_loop_state 1 [x; y; z] a4 r) =
  mk_loop_state 2 [x; uchar b; z] a4 r.
Proof. reflexivity. Qed.

Lemma loop_body_2 b x y z a4 r :
  loop_body b (mk_loop_state 2 [x; y; z] a4 r) =
  let a3 := [x; y; uchar b] in
  let q := [slice0 a3; slice1 a3; slice2 a3; slice3 a3] in
  mk_loop_state 0 a3 q (r ++ map sym q).
Proof.
  unfold loop_body, emit. cbn [i char_array_3 char_array_4 ret].
  change (aset [x; y; z] 2 (uchar b)) with [x; y; uchar b].
  change (2 + 1 =? 3) with true. cbv iota zeta.
  change (range 0 4) with [0; 1; 2; 3]. cbn [fold_left map].
  now repeat rewrite <- app_assoc.
Qed.

Lemma feed_three a b c rest x y z a4 r :
  feed (a :: b :: c :: rest) (mk_loop_state 0 [x; y; z] a4 r) =
  feed rest (mk_loop_state 0 [uchar a; uchar b; uchar c]
               (let a3 := [uchar a; uchar b; uchar c] in
                [slice0 a3; slice1 a3; slice2 a3; slice3 a3])
               (r ++ quad a b c)).
Proof.
  unfold feed. cbn [fold_left].
  now rewrite loop_body_0, loop_body_1, loop_body_2.
Qed.

Lemma flush_groups l : forall x y z p q s t r,
  flush (feed l (mk_loop_state 0 [x; y; z] [p; q; s; t] r)) = r ++ groups l.
Proof.
  induction l as [|a|a b|a b c l IH] using list_ind3; intros.
  - cbn. now rewrite app_nil_r.
  - unfold feed. cbn [fold_left]. rewrite loop_body_0.
    unfold flush, emit. cbn [i char_array_3 char_array_4 ret].
    change (1 =? 0) with false. cbv iota zeta.
    change (range 1 3) with [1; 2]. change (range 0 (1 + 1)) with [0; 1].
    cbn [fold_left]. change (Z.to_nat (3 - 1)) with 2%nat.
    rewrite <- !app_assoc. reflexivity.
  - unfold feed. cbn [fold_left]. rewrite loop_body_0, loop_body_1.
    unfold flush, emit. cbn [i char_array_3 char_array_4 ret].
    change (2 =? 0) with false. cbv iota zeta.
    change (range 2 3) with [2]. change (range 0 (2 + 1)) with [0; 1; 2].
    cbn [fold_left]. change (Z.to_nat (3 - 2)) with 1%nat.
    rewrite <- !app_assoc. reflexivity.
  - rewrite feed_three. cbn zeta. rewrite IH.
    cbn [groups]. now rewrite app_assoc.
Qed.

(** ** The counter decides how many bytes the loop reads *)

Lemma to_int_fits z : INT_MIN <= z <= INT_MAX -> to_int z = z.
Proof. unfold to_int, INT_MIN, INT_MAX. intro H. divlia. Qed.

Lemma to_int_range z : INT_MIN <= to_int z <= INT_MAX.
Proof. unfold to_int, INT_MIN, INT_MAX. divlia. Qed.

Lemma to_int_mod z : to_int z mod 4294967296 = z mod 4294967296.
Proof. unfold to_int. divlia. Qed.

(** The loop reads the first [in_len mod 2^32] bytes: the counter, read
    as an unsigned number, goes down by one at every turn. *)
Lemma loop_feed l : forall in_len s,
  INT_MIN <= in_len <= INT_MAX ->
  in_len mod 4294967296 <= Z.of_nat (List.length l) ->
  loop l in_len s = feed (firstn (Z.to_nat (in_len mod 4294967296)) l) s.
Proof.
  induction l as [|b rest IH]; intros in_len s Hr Hle.
  - rewrite firstn_nil. cbn [loop]. now destruct (in_len =? 0).
  - cbn [loop]. destruct (Z.eqb_spec in_len 0) as [->|Hnz].
    + reflexivity.
    + assert (Hu : 1 <= in_len mod 4294967296)
        by (unfold INT_MIN, INT_MAX in Hr; divlia).
      replace (Z.to_nat (in_len mod 4294967296))
        with (S (Z.to_nat (in_len mod 4294967296 - 1))) by lia.
      cbn [firstn]. unfold feed at 1. cbn [fold_left].
      fold (feed (firstn (Z.to_nat (in_len mod 4294967296 - 1)) rest)
                 (loop_body b s)).
      assert (Hd : to_int (in_len - 1) mod 4294967296
                   = in_len mod 4294967296 - 1)
        by (rewrite to_int_mod; divlia).
      rewrite IH.
      * now rewrite Hd.
      * apply to_int_range.
      * rewrite Hd. cbn [List.length] in Hle. lia.
Qed.

Lemma base64_encode_read input :
  base64_encode input = groups (bytes_read input).
Proof.
  unfold base64_encode, bytes_read, init_state. cbv zeta.
  pose proof (Nat2Z.is_nonneg (List.length input)) as Hn.
  rewrite loop_feed.
  - rewrite to_int_mod. now rewrite flush_groups.
  - apply to_int_range.
  - rewrite to_int_mod. divlia.
Qed.

(** Below 2^32 bytes the loop reads the whole input. *)
Lemma base64_encode_groups l :
  Z.of_nat (List.length l) < 4294967296 -> base64_encode l = groups l.
Proof.
  intro H. rewrite base64_encode_read. unfold bytes_read.
  rewrite Z.mod_small by lia. now rewrite Nat2Z.id, firstn_all.
Qed.

(** Up to [INT_MAX] bytes the count down never overflows and no byte is
    read past the end. *)
Lemma loop_strict_defined l : forall in_len s,
  0 <= in_len <= Z.of_nat (List.length l) -> in_len <= INT_MAX ->
  loop_strict l in_len s = Some (loop l in_len s).
Proof.
  induction l as [|b rest IH]; intros in_len s Hr Hm.
  - cbn [List.length] in Hr. assert (in_len = 0) as -> by lia. reflexivity.
  - cbn [loop loop_strict]. destruct (Z.eqb_spec in_len 0) as [->|Hnz].
    + reflexivity.
    + destruct (Z.eqb_spec in_len INT_MIN) as [Hmin|_];
        [unfold INT_MIN in Hmin; lia|].
      rewrite (to_int_fits (in_len - 1))
        by (unfold INT_MIN, INT_MAX in *; lia).
      apply IH; [cbn [List.length] in Hr; lia | lia].
Qed.

Lemma loop_strict_overflow l s : loop_strict l INT_MIN s = None.
Proof. destruct l; reflexivity. Qed.

(** ** Runs of one char *)

Lemma long_run_length c n :
  0 <= n -> Z.of_nat (List.length (long_run c n)) = n.
Proof. intro H. unfold long_run. rewrite repeat_length. lia. Qed.

Lemma long_run_cons c n :
  0 < n -> long_run c n = c :: long_run c (n - 1).
Proof.
  intro H. unfold long_run.
  replace (Z.to_nat n) with (S (Z.to_nat (n - 1))) by lia.
  reflexivity.
Qed.

Lemma firstn_long_run k : forall (c : ascii) n,
  Z.of_nat k <= n -> firstn k (long_run c n) = repeat c k.
Proof.
  induction k as [|k IH]; intros c n H; [reflexivity|].
  rewrite long_run_cons by lia. cbn [firstn repeat]. f_equal.
  apply IH. lia.
Qed.

End LoopGroups.

(** ** Base64: alphabet, lengths and decoding of the groups *)

Section Base64Facts.
Import Base64 Base64Spec Base64Decode.

Lemma value_of_sym n : 0 <= n < 64 -> value_of (sym n) = Some n.
Proof.
  intro H.
  pose proof (range_forallb
    (fun n => match value_of (sym n) with Some m => m =? n | None => false end)
    0 64 eq_refl n H) as E.
  cbv beta in E. destruct (value_of (sym n)); [|discriminate].
  apply Z.eqb_eq in E. now subst.
Qed.

Lemma sym_not_pad n : 0 <= n < 64 -> Ascii.eqb (sym n) pad = false.
Proof.
  intro H.
  pose proof (range_forallb (fun n => negb (Ascii.eqb (sym n) pad))
    0 64 eq_refl n H) as E.
  now apply negb_true_iff in E.
Qed.

Lemma sym_in n : 0 <= n < 64 -> In (sym n) base64_chars.
Proof.
  intro H.
  pose proof (range_forallb
    (fun n => existsb (Ascii.eqb (sym n)) base64_chars) 0 64 eq_refl n H) as E.
  cbv beta in E. apply existsb_exists in E. destruct E as [c [Hc E]].
  apply Ascii.eqb_eq in E. now subst.
Qed.

Lemma pad_not_in : ~ In pad base64_chars.
Proof.
  intro H.
  assert (E : existsb (Ascii.eqb pad) base64_chars = true).
  { apply existsb_exists. exists pad. split; [exact H | apply Ascii.eqb_refl]. }
  discriminate E.
Qed.

(** Every 6-bit slice of a group of bytes is below 64. *)
Lemma slice_bounds a b c :
  (0 <= uchar a / 4 < 64) /\
  (0 <= uchar a mod 4 * 16 + uchar b / 16 < 64) /\
  (0 <= uchar a mod 4 * 16 < 64) /\
  (0 <= uchar b mod 16 * 4 + uchar c / 64 < 64) /\
  (0 <= uchar b mod 16 * 4 < 64) /\
  (0 <= uchar c mod 64 < 64).
Proof.
  pose proof (uchar_range a). pose proof (uchar_range b).
  pose proof (uchar_range c). repeat split; divlia.
Qed.

Lemma quad_eq a b c :
  quad a b c =
  [sym (uchar a / 4); sym (uchar a mod 4 * 16 + uchar b / 16);
   sym (uchar b mod 16 * 4 + uchar c / 64); sym (uchar c mod 64)].
Proof.
  unfold quad. cbv zeta.
  now rewrite slice0_full, slice1_full, slice2_full, slice3_full.
Qed.

Lemma tail1_eq a :
  tail1 a = [sym (uchar a / 4); sym (uchar a mod 4 * 16); pad; pad].
Proof. unfold tail1. cbv zeta. now rewrite slice0_full, slice1_pad. Qed.

Lemma tail2_eq a b :
  tail2 a b =
  [sym (uchar a / 4); sym (uchar a mod 4 * 16 + uchar b / 16);
   sym (uchar b mod 16 * 4); pad].
Proof.
  unfold tail2. cbv zeta. now rewrite slice0_full, slice1_full, slice2_pad.
Qed.

(** The groups of a concatenation, when the left part is whole groups. *)
Lemma groups_app p q :
  (List.length p mod 3 = 0)%nat -> groups (p ++ q) = groups p ++ groups q.
Proof.
  induction p as [|a|a b|a b c p IH] using list_ind3; intro H.
  - reflexivity.
  - discriminate H.
  - discriminate H.
  - change (groups (quad a b c ++ groups (p ++ q))
            = (quad a b c ++ groups p) ++ groups q) || cbn [app groups].
    rewrite IH, ?app_assoc; [reflexivity|].
    cbn [List.length] in H.
    replace (S (S (S (List.length p)))) with (List.length p + 1 * 3)%nat in H by lia.
    now rewrite Nat.Div0.mod_add in H.
Qed.

Lemma groups_length l :
  Z.of_nat (List.length (groups l)) = 4 * ((Z.of_nat (List.length l) + 2) / 3).
Proof.
  induction l as [|a|a b|a b c l IH] using list_ind3.
  - reflexivity.
  - reflexivity.
  - reflexivity.
  - cbn [groups]. rewrite length_app, Nat2Z.inj_add, IH.
    change (List.length (quad a b c)) with 4%nat.
    cbn [List.length]. divlia.
Qed.

(** Every char of the output is of the alphabet or the pad char. *)
Lemma groups_alphabet l :
  Forall (fun c => In c base64_chars \/ c = pad) (groups l).
Proof.
  assert (S : forall n, 0 <= n < 64 -> In (sym n) base64_chars \/ sym n = pad)
    by (intros; left; now apply sym_in).
  assert (P : In pad base64_chars \/ pad = pad) by now right.
  induction l as [|a|a b|a b c l IH] using list_ind3.
  - constructor.
  - cbn [groups]. rewrite tail1_eq.
    destruct (slice_bounds a a a) as (H0 & _ & H1 & _).
    repeat (apply Forall_cons; [now auto|]). constructor.
  - cbn [groups]. rewrite tail2_eq.
    destruct (slice_bounds a b b) as (H0 & H1 & _ & _ & H2 & _).
    repeat (apply Forall_cons; [now auto|]). constructor.
  - cbn [groups]. rewrite quad_eq. apply Forall_app. split; [|exact IH].
    destruct (slice_bounds a b c) as (H0 & H1 & _ & H2 & _ & H3).
    repeat (apply Forall_cons; [now auto|]). constructor.
Qed.

Lemma byte0_slices a b :
  byte0 (uchar a / 4) (uchar a mod 4 * 16 + uchar b / 16) = a.
Proof.
  unfold byte0. rewrite <- (char_of_uchar a) at 3. f_equal.
  pose proof (uchar_range a). pose proof (uchar_range b). divlia.
Qed.

Lemma byte0_pad a : byte0 (uchar a / 4) (uchar a mod 4 * 16) = a.
Proof.
  unfold byte0. rewrite <- (char_of_uchar a) at 3. f_equal.
  pose proof (uchar_range a). divlia.
Qed.

Lemma byte1_slices a b c :
  byte1 (uchar a mod 4 * 16 + uchar b / 16) (uchar b mod 16 * 4 + uchar c / 64) = b.
Proof.
  unfold byte1. rewrite <- (char_of_uchar b) at 3. f_equal.
  pose proof (uchar_range a). pose proof (uchar_range b).
  pose proof (uchar_range c). divlia.
Qed.

Lemma byte1_pad a b :
  byte1 (uchar a mod 4 * 16 + uchar b / 16) (uchar b mod 16 * 4) = b.
Proof.
  unfold byte1. rewrite <- (char_of_uchar b) at 3. f_equal.
  pose proof (uchar_range a). pose proof (uchar_range b). divlia.
Qed.

Lemma byte2_slices b c :
  byte2 (uchar b mod 16 * 4 + uchar c / 64) (uchar c mod 64) = c.
Proof.
  unfold byte2. rewrite <- (char_of_uchar c) at 3. f_equal.
  pose proof (uchar_range b). pose proof (uchar_range c). divlia.
Qed.

Lemma decode_full_quad a b c :
  decode_full (sym (uchar a / 4)) (sym (uchar a mod 4 * 16 + uchar b / 16))
              (sym (uchar b mod 16 * 4 + uchar c / 64)) (sym (uchar c mod 64))
  = Some [a; b; c].
Proof.
  destruct (slice_bounds a b c) as (H0 & H1 & _ & H2 & _ & H3).
  unfold decode_full. rewrite !value_of_sym by assumption.
  now rewrite byte0_slices, byte1_slices, byte2_slices.
Qed.

Lemma decode_last_quad a b c :
  decode_last (sym (uchar a / 4)) (sym (uchar a mod 4 * 16 + uchar b / 16))
              (sym (uchar b mod 16 * 4 + uchar c / 64)) (sym (uchar c mod 64))
  = Some [a; b; c].
Proof.
  destruct (slice_bounds a b c) as (_ & _ & _ & _ & _ & H3).
  unfold decode_last. rewrite sym_not_pad by assumption.
  apply decode_full_quad.
Qed.

Lemma decode_last_tail1 a :
  decode_last (sym (uchar a / 4)) (sym (uchar a mod 4 * 16)) pad pad = Some [a].
Proof.
  destruct (slice_bounds a a a) as (H0 & _ & H1 & _).
  unfold decode_last. rewrite !Ascii.eqb_refl.
  rewrite !value_of_sym by assumption. now rewrite byte0_pad.
Qed.

Lemma decode_last_tail2 a b :
  decode_last (sym (uchar a / 4)) (sym (uchar a mod 4 * 16 + uchar b / 16))
              (sym (uchar b mod 16 * 4)) pad = Some [a; b].
Proof.
  destruct (slice_bounds a b b) as (H0 & H1 & _ & _ & H2 & _).
  unfold decode_last. rewrite Ascii.eqb_refl.
  rewrite (sym_not_pad _ H2). rewrite !value_of_sym by assumption.
  now rewrite byte0_slices, byte1_pad.
Qed.

Lemma groups_nil l : groups l = [] -> l = [].
Proof.
  intro H. destruct l as [|a l]; [reflexivity|]. exfalso.
  apply (f_equal (fun x => Z.of_nat (List.length x))) in H.
  rewrite groups_length in H. cbn [List.length] in H. divlia.
Qed.

Lemma decode_groups l : base64_decode (groups l) = Some l.
Proof.
  induction l as [|a|a b|a b c l IH] using list_ind3.
  - reflexivity.
  - cbn [groups]. rewrite tail1_eq. cbn [base64_decode]. apply decode_last_tail1.
  - cbn [groups]. rewrite tail2_eq. cbn [base64_decode]. apply decode_last_tail2.
  - cbn [groups]. rewrite quad_eq. cbn [app base64_decode].
    destruct (groups l) as [|g gs] eqn:G.
    + apply groups_nil in G. subst l. apply decode_last_quad.
    + rewrite decode_full_quad, IH. reflexivity.
Qed.

End Base64Facts.

(** ** Percent-encoding: the loop, char by char *)

Section UrlFacts.
Import Url UrlSpec.

(** The test of the code is the allow-list of the specification. *)
Lemma passes_unreserved c : passes c = unreserved c.
Proof. all_bytes c; reflexivity. Qed.

Lemma hex_high c :
  string_at hex_digits (Z.shiftr (uchar c) 4) = hex_digit (uchar c / 16).
Proof. all_bytes c; reflexivity. Qed.

Lemma hex_low c :
  string_at hex_digits (Z.land (uchar c) 15) = hex_digit (uchar c mod 16).
Proof. all_bytes c; reflexivity. Qed.

Lemma encode_char_one encoded c :
  encode_char encoded c = encoded ++ encode_one c.
Proof.
  unfold encode_char, encode_one, percent.
  rewrite passes_unreserved, hex_high, hex_low.
  destruct (unreserved c); [reflexivity|].
  now rewrite <- !app_assoc.
Qed.

Lemma fold_encode_char str : forall encoded,
  fold_left encode_char str encoded = encoded ++ flat_map encode_one str.
Proof.
  induction str as [|c str IH]; intro encoded; cbn [fold_left flat_map].
  - now rewrite app_nil_r.
  - now rewrite IH, encode_char_one, app_assoc.
Qed.

Lemma url_encode_flat str : url_encode str = flat_map encode_one str.
Proof. unfold url_encode. now rewrite fold_encode_char. Qed.

Lemma url_encode_cons c str :
  url_encode (c :: str) = encode_one c ++ url_encode str.
Proof. now rewrite !url_encode_flat. Qed.

(** Decoding the code of a char gives the char back, whatever follows. *)
Lemma url_decode_one c rest :
  url_decode (encode_one c ++ rest) =
  match url_decode rest with Some more => Some (c :: more) | None => None end.
Proof. all_bytes c; reflexivity. Qed.

Lemma url_decode_encode str : url_decode (url_encode str) = Some str.
Proof.
  induction str as [|c str IH]; [reflexivity|].
  now rewrite url_encode_cons, url_decode_one, IH.
Qed.

(** The chars of the output: the allow-list and the percent sign. *)
Lemma encode_one_safe c :
  Forall (fun d => unreserved d = true \/ d = "%"%char) (encode_one c).
Proof.
  all_bytes c;
    (repeat (apply Forall_cons; [first [now left | now right]|]); constructor).
Qed.

Lemma url_encode_safe str :
  Forall (fun d => unreserved d = true \/ d = "%"%char) (url_encode str).
Proof.
  rewrite url_encode_flat.
  induction str as [|c str IH]; cbn [flat_map]; [constructor|].
  apply Forall_app. split; [apply encode_one_safe | exact IH].
Qed.

End UrlFacts.

(** ** The deflate loop against the engine's own run *)

Section CompressorFacts.
Import Zlib ZlibSpec.
Context (E : ZlibEngine) (C : ZlibContract E).

Lemma firstn_store outbuffer written :
  firstn (List.length written) (store outbuffer written) = written.
Proof.
  unfold store. rewrite firstn_app, Nat.sub_diag, firstn_all.
  cbn [firstn]. apply app_nil_r.
Qed.

(** As long as [total_out] is the size of [compressed], each iteration
    appends exactly what [deflate] stored. *)
Lemma deflate_loop_run fuel : forall zs outbuffer compressed,
  total_out zs = Z.of_nat (List.length compressed) ->
  deflate_loop E fuel zs outbuffer compressed =
  match engine_run E fuel zs with
  | Some (chunks, ret, zs') => Some (ret, zs', compressed ++ List.concat chunks)
  | None => None
  end.
Proof.
  induction fuel as [|fuel IH]; intros zs outbuffer compressed Hsize.
  - reflexivity.
  - cbn [deflate_loop engine_run].
    destruct (deflate E (set_output E zs outbuffer_size) Z_FINISH)
      as [[ret written] zs'] eqn:D.
    destruct (deflate_writes E C _ _ _ _ D) as [Hlen Htotal];
      [cbn; unfold outbuffer_size; lia|].
    cbn [set_output total_out] in Htotal.
    assert (Happ :
      (if Z.of_nat (List.length compressed) <? total_out zs'
       then compressed ++
            firstn (Z.to_nat (total_out zs' - Z.of_nat (List.length compressed)))
                   (store outbuffer written)
       else compressed) = compressed ++ written).
    { rewrite Htotal, Hsize.
      destruct written as [|w ws] eqn:W.
      - cbn [List.length]. rewrite Z.add_0_r, Z.ltb_irrefl.
        now rewrite app_nil_r.
      - rewrite <- W in *.
        assert (0 < Z.of_nat (List.length written))
          by (rewrite W; cbn [List.length]; lia).
        destruct (Z.ltb_spec (Z.of_nat (List.length compressed))
                    (Z.of_nat (List.length compressed)
                     + Z.of_nat (List.length written))); [|lia].
        replace (Z.of_nat (List.length compressed)
                 + Z.of_nat (List.length written)
                 - Z.of_nat (List.length compressed))
          with (Z.of_nat (List.length written)) by lia.
        now rewrite Nat2Z.id, firstn_store. }
    rewrite Happ.
    destruct (ret =? Z_OK).
    + rewrite IH.
      * destruct (engine_run E fuel zs') as [[[chunks last] zs'']|];
          [|reflexivity].
        cbn [List.concat]. now rewrite app_assoc.
      * rewrite Htotal, Hsize, length_app. lia.
    + cbn [List.concat]. now rewrite app_nil_r.
Qed.

(** A run that ends on [Z_STREAM_END] has handed out all that was owed
    and consumed all the input. *)
Lemma engine_run_end fuel : forall zs chunks zs',
  engine_run E fuel zs = Some (chunks, Z_STREAM_END, zs') ->
  List.concat chunks = pending C zs /\ avail_in zs' = 0.
Proof.
  induction fuel as [|fuel IH]; intros zs chunks zs' H; [discriminate H|].
  cbn [engine_run] in H.
  destruct (deflate E (set_output E zs outbuffer_size) Z_FINISH)
    as [[ret written] zs1] eqn:D.
  rewrite <- (pending_set_output E C zs outbuffer_size).
  destruct (Z.eqb_spec ret Z_OK) as [Hok|Hnok].
  - destruct (engine_run E fuel zs1) as [[[chunks1 last] zs2]|] eqn:R;
      [|discriminate H].
    injection H as <- -> <-.
    destruct (IH _ _ _ R) as [Hc Hin]. split; [|exact Hin].
    cbn [List.concat]. rewrite Hc.
    apply (deflate_stream E C _ _ _ _ D). now left.
  - injection H as <- -> <-.
    destruct (deflate_end E C _ _ _ _ D eq_refl) as [Hp Hin].
    split; [|exact Hin].
    cbn [List.concat]. rewrite app_nil_r.
    rewrite <- (deflate_stream E C _ _ _ _ D) by now right.
    now rewrite Hp, app_nil_r.
Qed.

(** The run ends: each [Z_OK] takes a full buffer off what is owed. *)
Lemma engine_run_terminates fuel : forall zs,
  (List.length (pending C zs) < fuel)%nat ->
  exists r, engine_run E fuel zs = Some r.
Proof.
  induction fuel as [|fuel IH]; intros zs Hlt; [lia|].
  cbn [engine_run].
  destruct (deflate E (set_output E zs outbuffer_size) Z_FINISH)
    as [[ret written] zs1] eqn:D.
  destruct (Z.eqb_spec ret Z_OK) as [Hok|Hnok].
  - pose proof (deflate_ok E C _ _ _ _ D Hok) as Hfull.
    cbn [set_output avail_out] in Hfull. unfold outbuffer_size in Hfull.
    pose proof (deflate_stream E C _ _ _ _ D (or_introl Hok)) as Hs.
    rewrite pending_set_output in Hs.
    apply (f_equal (@List.length ascii)) in Hs. rewrite length_app in Hs.
    destruct (IH zs1) as [[[chunks last] zs2] R]; [lia|].
    rewrite R. eauto.
  - eauto.
Qed.

Lemma engine_run_more fuel : forall zs r,
  engine_run E fuel zs = Some r ->
  forall fuel', (fuel <= fuel')%nat -> engine_run E fuel' zs = Some r.
Proof.
  induction fuel as [|fuel IH]; intros zs r H fuel' Hle; [discriminate H|].
  destruct fuel' as [|fuel']; [lia|].
  cbn [engine_run] in *.
  destruct (deflate E (set_output E zs outbuffer_size) Z_FINISH)
    as [[ret written] zs1] eqn:D.
  destruct (ret =? Z_OK); [|exact H].
  destruct (engine_run E fuel zs1) as [r1|] eqn:R.
  - rewrite (IH _ _ R fuel') by lia. exact H.
  - destruct r; discriminate H.
Qed.

(** [compress_data], read off the engine's run. *)
Lemma compress_data_run fuel data :
  compress_data E fuel data =
  let '(rc, zs) := init_call E in
  if negb (rc =? Z_OK) then Some (Thrown "deflateInit failed")
  else
    match engine_run E fuel (set_input E zs data) with
    | None => None
    | Some (chunks, ret, _) =>
      if negb (ret =? Z_STREAM_END) then Some (Thrown "compression failed")
      else Some (Returned (List.concat chunks))
    end.
Proof.
  unfold compress_data, init_call.
  destruct (deflateInit2 E (zero_stream E) Z_BEST_COMPRESSION Z_DEFLATED
              (Z.lor MAX_WBITS 16) 8 Z_DEFAULT_STRATEGY) as [rc zs] eqn:I.
  destruct (Z.eqb_spec rc Z_OK) as [Hok|Hnok]; cbn [negb]; [|reflexivity].
  subst rc. pose proof (init_total_out E C _ _ _ _ _ _ _ I) as Ht.
  rewrite deflate_loop_run by (cbn; exact Ht).
  destruct (engine_run E fuel (set_input E zs data)) as [[[chunks ret] zs']|];
    [|reflexivity].
  destruct (deflateEnd E zs') as [rc' zs'']. reflexivity.
Qed.

Lemma compress_data_terminates data :
  exists fuel0 r, forall fuel, (fuel0 <= fuel)%nat ->
    compress_data E fuel data = Some r.
Proof.
  destruct (init_call E) as [rc zs] eqn:I.
  set (fuel0 := S (List.length (pending C (set_input E zs data)))).
  destruct (engine_run_terminates fuel0 (set_input E zs data))
    as [[[chunks ret] zs'] R]; [unfold fuel0; lia|].
  exists fuel0.
  exists (if negb (rc =? Z_OK) then Thrown "deflateInit failed"
          else if negb (ret =? Z_STREAM_END) then Thrown "compression failed"
          else Returned (List.concat chunks)).
  intros fuel Hle. rewrite compress_data_run, I.
  rewrite (engine_run_more _ _ _ R fuel Hle).
  destruct (negb (rc =? Z_OK)); [reflexivity|].
  destruct (negb (ret =? Z_STREAM_END)); reflexivity.
Qed.

(** What is returned is what the engine owed for the bytes [avail_in]
    announced: a gzip member of these bytes. *)
Lemma compress_data_returned fuel data compressed :
  compress_data E fuel data = Some (Returned compressed) ->
  compressed = pending C (set_input E (snd (init_call E)) data) /\
  gzip_framed compressed = true /\
  gunzip C compressed
  = Some (firstn (Z.to_nat (to_uInt (Z.of_nat (List.length data)))) data).
Proof.
  intro H. rewrite compress_data_run in H.
  destruct (init_call E) as [rc zs] eqn:I. cbn [snd].
  destruct (Z.eqb_spec rc Z_OK) as [Hok|Hnok]; cbn [negb] in H;
    [|discriminate H].
  destruct (engine_run E fuel (set_input E zs data))
    as [[[chunks ret] zs']|] eqn:R; [|discriminate H].
  destruct (Z.eqb_spec ret Z_STREAM_END) as [Hend|Hnend]; cbn [negb] in H;
    [|discriminate H].
  injection H as <-. subst rc ret.
  destruct (engine_run_end _ _ _ _ R) as [Hc _]. rewrite Hc.
  split; [reflexivity|].
  unfold init_call in I.
  apply (init_gzip E C _ _ _ _ _ _ data _ I).
  - unfold MAX_WBITS. cbn. lia.
  - unfold to_uInt. pose proof (Nat2Z.is_nonneg (List.length data)). divlia.
Qed.

(** Below 2^32 bytes [avail_in] announces the whole of [data]. *)
Lemma given_all (data : std_string) :
  Z.of_nat (List.length data) < 4294967296 ->
  firstn (Z.to_nat (to_uInt (Z.of_nat (List.length data)))) data = data.
Proof.
  intro H. unfold to_uInt. rewrite Z.mod_small by lia.
  now rewrite Nat2Z.id, firstn_all.
Qed.

End CompressorFacts.

(** ** The reference engine meets the contract *)

Section RefEngineFacts.
Import Zlib ZlibSpec RefEngine.

Lemma member_gzip windowBits data :
  16 <= windowBits ->
  gzip_framed (member windowBits data) = true /\
  ref_gunzip (member windowBits data) = Some data.
Proof.
  intro H. unfold member. destruct (Z.leb_spec 16 windowBits); [|lia].
  assert (F : gzip_framed
                (gzip_header ++ data ++ le32 0
                 ++ le32 (Z.of_nat (List.length data))) = true).
  { unfold gzip_framed. cbn [gzip_header map app].
    change (uchar (char_of 31) =? 31) with true.
    change (uchar (char_of 139) =? 139) with true.
    change (uchar (char_of 8) =? 8) with true.
    cbn [andb List.length]. rewrite !length_app. cbn [List.length le32 map].
    apply Z.leb_le. lia. }
  split; [exact F|].
  unfold ref_gunzip. rewrite F. f_equal.
  change 10%nat with (List.length gzip_header) at 2.
  rewrite skipn_app, Nat.sub_diag, skipn_all. cbn [skipn app].
  rewrite !length_app. cbn [List.length gzip_header le32 map].
  replace (10 + (List.length data + (4 + 4)) - 18)%nat
    with (List.length data + 0)%nat by lia.
  rewrite firstn_app_2. cbn [firstn]. apply app_nil_r.
Qed.

Lemma ref_init_total_out zs level method windowBits memLevel strategy zs' :
  ref_init zs level method windowBits memLevel strategy = (Z_OK, zs') ->
  total_out zs' = 0.
Proof.
  unfold ref_init. intro H.
  destruct (_ && _) in H; [|discriminate H].
  injection H as <-. reflexivity.
Qed.

Lemma ref_init_gzip zs level windowBits memLevel strategy zs' input n :
  ref_init zs level Z_DEFLATED windowBits memLevel strategy = (Z_OK, zs') ->
  16 + 8 <= windowBits <= 16 + MAX_WBITS ->
  0 <= n <= Z.of_nat (List.length input) ->
  let zs_in :=
    mk_z_stream input n (avail_out zs') (total_out zs') (state zs') in
  gzip_framed (owed zs_in) = true /\
  ref_gunzip (owed zs_in) = Some (firstn (Z.to_nat n) input).
Proof.
  unfold ref_init. intros H Hw Hn.
  destruct (_ && _) in H; [|discriminate H].
  injection H as <-. unfold owed. cbn [state queue wrap avail_in next_in].
  apply member_gzip. lia.
Qed.

Lemma ref_deflate_writes zs ret written zs' :
  ref_deflate zs Z_FINISH = (ret, written, zs') ->
  0 <= avail_out zs ->
  Z.of_nat (List.length written) <= avail_out zs /\
  total_out zs' = total_out zs + Z.of_nat (List.length written).
Proof.
  unfold ref_deflate. intros H Hpos.
  destruct (state zs) as [st|].
  - destruct (Z.leb_spec (avail_out zs) 0).
    + injection H as <- <- <-. cbn [List.length]. lia.
    + injection H as <- <- <-. cbn [total_out]. split; [|reflexivity].
      rewrite length_firstn. lia.
  - injection H as <- <- <-. cbn [List.length]. lia.
Qed.

Lemma ref_deflate_ok zs ret written zs' :
  ref_deflate zs Z_FINISH = (ret, written, zs') ->
  ret = Z_OK -> Z.of_nat (List.length written) = avail_out zs.
Proof.
  unfold ref_deflate. intros H Hok.
  destruct (state zs) as [st|].
  - destruct (Z.leb_spec (avail_out zs) 0).
    + injection H as <- <- <-. discriminate Hok.
    + injection H as <- <- <-.
      destruct (Z.ltb_spec (Z.of_nat (List.length (owed zs))) (avail_out zs));
        [discriminate Hok|].
      rewrite length_firstn. lia.
  - injection H as <- <- <-. discriminate Hok.
Qed.

Lemma ref_deflate_stream zs ret written zs' :
  ref_deflate zs Z_FINISH = (ret, written, zs') ->
  ret = Z_OK \/ ret = Z_STREAM_END ->
  written ++ owed zs' = owed zs.
Proof.
  unfold ref_deflate. intros H Hret.
  destruct (state zs) as [st|] eqn:S.
  - destruct (Z.leb_spec (avail_out zs) 0).
    + injection H as <- <- <-. destruct Hret as [Hret|Hret]; discriminate Hret.
    + injection H as <- <- <-.
      unfold owed at 2. cbn [state queue]. apply firstn_skipn.
  - injection H as <- <- <-. destruct Hret as [Hret|Hret]; discriminate Hret.
Qed.

Lemma ref_deflate_end zs ret written zs' :
  ref_deflate zs Z_FINISH = (ret, written, zs') ->
  ret = Z_STREAM_END -> owed zs' = [] /\ avail_in zs' = 0.
Proof.
  unfold ref_deflate. intros H Hend.
  destruct (state zs) as [st|] eqn:S.
  - destruct (Z.leb_spec (avail_out zs) 0).
    + injection H as <- <- <-. discriminate Hend.
    + injection H as <- <- <-.
      destruct (Z.ltb_spec (Z.of_nat (List.length (owed zs))) (avail_out zs));
        [|discriminate Hend].
      split; [|reflexivity].
      unfold owed at 1. cbn [state queue]. apply skipn_all2. lia.
  - injection H as <- <- <-. discriminate Hend.
Qed.

Lemma ref_owed_set_output zs size :
  owed (set_output engine zs size) = owed zs.
Proof. reflexivity. Qed.

Lemma ref_contract : ZlibContract engine.
Proof.
  exact (Build_ZlibContract engine owed ref_gunzip
           ref_init_total_out ref_init_gzip ref_deflate_writes ref_deflate_ok
           ref_deflate_stream ref_deflate_end ref_owed_set_output).
Defined.

Lemma ref_init_call :
  init_call engine
  = (Z_OK, mk_z_stream [] 0 0 0 (Some (mk_ref_state 31 None))).
Proof. reflexivity. Qed.

(** The reference engine on an input whose member fits one buffer: one
    turn of the loop, and the member of the bytes [avail_in] announces. *)
Lemma ref_compress_data data :
  let given :=
    firstn (Z.to_nat (to_uInt (Z.of_nat (List.length data)))) data in
  Z.of_nat (List.length (member 31 given)) < outbuffer_size ->
  compress_data engine 1 data = Some (Returned (member 31 given)).
Proof.
  intros given Hfit.
  rewrite (compress_data_run engine ref_contract), ref_init_call.
  change (negb (Z_OK =? Z_OK)) with false. cbv iota.
  cbn [engine_run].
  change (deflate engine
            (set_output engine
               (set_input engine
                  (mk_z_stream [] 0 0 0 (Some (mk_ref_state 31 None))) data)
               outbuffer_size) Z_FINISH)
    with (if Z.of_nat (List.length (member 31 given)) <? outbuffer_size
          then Z_STREAM_END else Z_OK,
          firstn (Z.to_nat outbuffer_size)
                                           (member 31 given),
          mk_z_stream
            (skipn (Z.to_nat (to_uInt (Z.of_nat (List.length data)))) data) 0
            (outbuffer_size
             - Z.of_nat (List.length (firstn (Z.to_nat outbuffer_size)
                                             (member 31 given))))
            (0 + Z.of_nat (List.length (firstn (Z.to_nat outbuffer_size)
                                               (member 31 given))))
            (Some (mk_ref_state 31
                     (Some (skipn (Z.to_nat outbuffer_size)
                                  (member 31 given)))))).
  clearbody given.
  destruct (Z.ltb_spec (Z.of_nat (List.length (member 31 given)))
                       outbuffer_size) as [_|Hge];
    [|exfalso; exact (Z.lt_irrefl _ (Z.lt_le_trans _ _ _ Hfit Hge))].
  change (Z_STREAM_END =? Z_OK) with false.
  change (negb (Z_STREAM_END =? Z_STREAM_END)) with false. cbv iota.
  cbn [List.concat]. rewrite app_nil_r.
  rewrite firstn_all2; [reflexivity|]. unfold outbuffer_size in *. lia.
Qed.

End RefEngineFacts.

(** * The claims on the two encoders *)

Section EncoderClaims.
Import Base64 Base64Spec Base64Decode Url UrlSpec.

(** On 2^32 + 1 bytes the [int] counter holds 1: one byte is encoded. *)
Lemma base64_encode_long_M :
  base64_encode (long_run "M" 4294967297) = lit "TQ==".
Proof.
  rewrite base64_encode_read. unfold bytes_read.
  rewrite long_run_length by lia.
  replace (4294967297 mod 4294967296) with 1 by reflexivity.
  change (Z.to_nat 1) with 1%nat.
  rewrite long_run_cons by lia. cbn [firstn]. reflexivity.
Qed.

Lemma long_M_not_M : long_run "M" 4294967297 <> lit "M".
Proof.
  intro H. apply (f_equal (fun l => Z.of_nat (List.length l))) in H.
  rewrite long_run_length in H by lia. discriminate H.
Qed.

(** C2, as the code has it.  For an input of at most [INT_MAX] bytes
    (the lengths the counter [int in_len] holds) whose length is not a
    multiple of 3, the output is the encoding of the whole groups
    followed by one last quantum of 4 chars for the partial group:
    exactly 2 chars of the alphabet then two [=] when 1 byte is left
    over, exactly 3 chars of the alphabet then one [=] when 2 bytes are
    left over ([=] is not of the alphabet).  And ["M"], ["Ma"], ["Man"]
    encode to ["TQ=="], ["TWE="], ["TWFu"]. *)
Theorem base64_padding (input : std_string) :
  Z.of_nat (List.length input) <= INT_MAX ->
  (List.length input mod 3 <> 0)%nat ->
  let whole := firstn (3 * (List.length input / 3)) input in
  List.length (base64_encode input)
    = (List.length (base64_encode whole) + 4)%nat /\
  ((List.length input mod 3 = 1)%nat ->
     exists d0 d1, In d0 base64_chars /\ In d1 base64_chars /\
       base64_encode input = base64_encode whole ++ [d0; d1; pad; pad]) /\
  ((List.length input mod 3 = 2)%nat ->
     exists d0 d1 d2,
       In d0 base64_chars /\ In d1 base64_chars /\ In d2 base64_chars /\
       base64_encode input = base64_encode whole ++ [d0; d1; d2; pad]) /\
  ~ In pad base64_chars /\
  base64_encode (lit "M") = lit "TQ==" /\
  base64_encode (lit "Ma") = lit "TWE=" /\
  base64_encode (lit "Man") = lit "TWFu".
Proof.
  intros Hfit Hpartial whole.
  set (n := List.length input) in *.
  set (left_over := skipn (3 * (n / 3)) input).
  assert (Hsplit : input = whole ++ left_over)
    by (symmetry; apply firstn_skipn).
  assert (Hle : (3 * (n / 3) <= n)%nat) by (apply Nat.Div0.mul_div_le).
  assert (Hlw : List.length whole = (3 * (n / 3))%nat)
    by (unfold whole; rewrite length_firstn; fold n; lia).
  assert (Hwhole : (List.length whole mod 3 = 0)%nat).
  { rewrite Hlw, Nat.mul_comm. apply Nat.Div0.mod_mul. }
  assert (Hleft : List.length left_over = (n mod 3)%nat).
  { unfold left_over. rewrite length_skipn. fold n.
    pose proof (Nat.div_mod_eq n 3). lia. }
  assert (Ei : base64_encode input = groups input)
    by (apply base64_encode_groups; fold n; unfold INT_MAX in Hfit; lia).
  assert (Ew : base64_encode whole = groups whole)
    by (apply base64_encode_groups; unfold INT_MAX in Hfit; lia).
  assert (Hone : (n mod 3 = 1)%nat ->
     exists d0 d1, In d0 base64_chars /\ In d1 base64_chars /\
       base64_encode input = base64_encode whole ++ [d0; d1; pad; pad]).
  { intro H1. rewrite H1 in Hleft.
    destruct left_over as [|a [|b r]]; try discriminate Hleft.
    destruct (slice_bounds a a a) as (H0 & _ & H0' & _).
    exists (sym (uchar a / 4)), (sym (uchar a mod 4 * 16)).
    split; [now apply sym_in|]. split; [now apply sym_in|].
    rewrite Ei, Ew.
    rewrite Hsplit at 1. rewrite (groups_app _ _ Hwhole).
    cbn [groups]. now rewrite tail1_eq. }
  assert (Htwo : (n mod 3 = 2)%nat ->
     exists d0 d1 d2,
       In d0 base64_chars /\ In d1 base64_chars /\ In d2 base64_chars /\
       base64_encode input = base64_encode whole ++ [d0; d1; d2; pad]).
  { intro H2. rewrite H2 in Hleft.
    destruct left_over as [|a [|b [|c r]]]; try discriminate Hleft.
    destruct (slice_bounds a b b) as (H0 & H1 & _ & _ & H2' & _).
    exists (sym (uchar a / 4)), (sym (uchar a mod 4 * 16 + uchar b / 16)),
           (sym (uchar b mod 16 * 4)).
    split; [now apply sym_in|]. split; [now apply sym_in|].
    split; [now apply sym_in|].
    rewrite Ei, Ew.
    rewrite Hsplit at 1. rewrite (groups_app _ _ Hwhole).
    cbn [groups]. now rewrite tail2_eq. }
  split; [|split; [exact Hone|split; [exact Htwo|
           split; [exact pad_not_in | now repeat split]]]].
  pose proof (Nat.mod_upper_bound n 3 ltac:(discriminate)) as Hlt.
  destruct (Nat.eq_dec (n mod 3) 1) as [H1|H1].
  - destruct (Hone H1) as (d0 & d1 & _ & _ & ->).
    rewrite length_app. reflexivity.
  - destruct (Htwo ltac:(lia)) as (d0 & d1 & d2 & _ & _ & _ & ->).
    rewrite length_app. reflexivity.
Qed.

Lemma base64_padding_witness :
  Z.of_nat (List.length (lit "hello world")) <= INT_MAX /\
  (List.length (lit "hello world") mod 3 <> 0)%nat /\
  exists d0 d1 d2,
    In d0 base64_chars /\ In d1 base64_chars /\ In d2 base64_chars /\
    base64_encode (lit "hello world")
    = base64_encode (lit "hello wor") ++ [d0; d1; d2; pad].
Proof.
  assert (F : Z.of_nat (List.length (lit "hello world")) <= INT_MAX)
    by (vm_compute; discriminate).
  assert (H : (List.length (lit "hello world") mod 3 <> 0)%nat)
    by (vm_compute; discriminate).
  split; [exact F|]. split; [exact H|].
  exact (proj1 (proj2 (proj2 (base64_padding (lit "hello world") F H)))
               eq_refl).
Defined.

(** C2 as it is worded, for every input, fails: 2^32 + 1 bytes leave 2
    bytes over, and the code gives ["TQ=="], which does not end in three
    chars of the alphabet and one [=]. *)
Lemma base64_padding_fails :
  (List.length (long_run "M" 4294967297) mod 3 = 2)%nat /\
  base64_encode (long_run "M" 4294967297) = lit "TQ==" /\
  ~ (exists whole d0 d1 d2,
       In d0 base64_chars /\ In d1 base64_chars /\ In d2 base64_chars /\
       base64_encode (long_run "M" 4294967297)
       = whole ++ [d0; d1; d2; pad]).
Proof.
  split; [|split; [exact base64_encode_long_M|]].
  - apply Nat2Z.inj. rewrite Nat2Z.inj_mod.
    rewrite long_run_length by lia. reflexivity.
  - intros (whole & d0 & d1 & d2 & _ & _ & H2 & E).
    rewrite base64_encode_long_M in E.
    destruct whole as [|x whole].
    + injection E as _ _ E2. subst d2. exact (pad_not_in H2).
    + apply (f_equal (@List.length ascii)) in E.
      cbn [app List.length lit list_ascii_of_string] in E.
      rewrite length_app in E. cbn [List.length] in E. lia.
Qed.

(** C3.  [url_encode] treats its input char by char: a char passes
    unchanged if and only if it is an ASCII letter, an ASCII digit or one
    of [- _ . ~]; any other char becomes [%] and the two uppercase
    hexadecimal digits of its byte value.  And ["a+b/c="] encodes to
    ["a%2Bb%2Fc%3D"]. *)
Theorem url_encode_by_char :
  (forall str, url_encode str = flat_map encode_one str) /\
  (forall c, url_encode [c] = [c] <-> unreserved c = true) /\
  (forall c, unreserved c = false -> url_encode [c] = percent c) /\
  url_encode (lit "a+b/c=") = lit "a%2Bb%2Fc%3D".
Proof.
  split; [exact url_encode_flat|].
  split; [|split; [|reflexivity]].
  - intro c. rewrite url_encode_flat. cbn [flat_map]. rewrite app_nil_r.
    unfold encode_one, percent.
    destruct (unreserved c); split; intro H; try reflexivity; discriminate H.
  - intros c H. rewrite url_encode_flat. cbn [flat_map]. rewrite app_nil_r.
    unfold encode_one. now rewrite H.
Qed.

(** C4, as the code has it.  The standard base64 decoder gives back
    every byte sequence of at most [INT_MAX] bytes from its encoding; so
    [base64_encode] is injective on these. *)
Theorem base64_round_trip :
  (forall b, Z.of_nat (List.length b) <= INT_MAX ->
     base64_decode (base64_encode b) = Some b) /\
  (forall b b',
     Z.of_nat (List.length b) <= INT_MAX ->
     Z.of_nat (List.length b') <= INT_MAX ->
     base64_encode b = base64_encode b' -> b = b').
Proof.
  assert (R : forall b, Z.of_nat (List.length b) <= INT_MAX ->
                base64_decode (base64_encode b) = Some b).
  { intros b H. rewrite base64_encode_groups by (unfold INT_MAX in H; lia).
    apply decode_groups. }
  split; [exact R|].
  intros b b' Hb Hb' H. apply (f_equal base64_decode) in H.
  rewrite (R b Hb), (R b' Hb') in H. now injection H.
Qed.

Lemma base64_round_trip_witness :
  base64_decode (base64_encode (lit "Ma")) = Some (lit "Ma") /\
  lit "Ma" = lit "Ma".
Proof.
  assert (F : Z.of_nat (List.length (lit "Ma")) <= INT_MAX)
    by (vm_compute; discriminate).
  split.
  - exact (proj1 base64_round_trip (lit "Ma") F).
  - exact (proj2 base64_round_trip (lit "Ma") (lit "Ma") F F eq_refl).
Defined.

(** C4 as it is worded, for every byte sequence, fails: the encoding of
    2^32 + 1 bytes is the encoding of its first byte, and decodes to
    that byte. *)
Lemma base64_round_trip_fails :
  base64_decode (base64_encode (long_run "M" 4294967297)) = Some (lit "M") /\
  base64_encode (long_run "M" 4294967297) = base64_encode (lit "M") /\
  long_run "M" 4294967297 <> lit "M".
Proof.
  rewrite base64_encode_long_M.
  split; [reflexivity|]. split; [reflexivity | exact long_M_not_M].
Qed.

(** C8, as the code has it.  [base64_encode] is defined (no overflow of
    its counter, no read past the end) on every byte sequence of at most
    [INT_MAX] bytes, and the value is the one of the wrap-around run;
    the outputs of both encoders are made of chars of their output
    alphabets only (no table is read out of its bounds), on every byte
    sequence; and both map the empty input to the empty output: no
    padding for the empty input. *)
Theorem encoders_total :
  (forall input, Z.of_nat (List.length input) <= INT_MAX ->
     base64_encode_strict input = Some (base64_encode input)) /\
  (forall input,
     Forall (fun c => In c base64_chars \/ c = pad) (base64_encode input)) /\
  (forall str,
     Forall (fun c => unreserved c = true \/ c = "%"%char) (url_encode str)) /\
  base64_encode [] = [] /\
  url_encode [] = [].
Proof.
  split; [|split; [|split; [|split; reflexivity]]].
  - intros input H. unfold base64_encode_strict, base64_encode. cbv zeta.
    pose proof (Nat2Z.is_nonneg (List.length input)) as Hn.
    rewrite (to_int_fits (Z.of_nat (List.length input)))
      by (unfold INT_MIN, INT_MAX in *; lia).
    now rewrite loop_strict_defined by lia.
  - intro input. rewrite base64_encode_read. apply groups_alphabet.
  - intro str. apply url_encode_safe.
Qed.

Lemma encoders_total_witness :
  base64_encode_strict (lit "Ma") = Some (lit "TWE=").
Proof.
  exact (proj1 encoders_total (lit "Ma") ltac:(vm_compute; discriminate)).
Defined.

(** C8 as it is worded, over arbitrary byte sequences, fails: on 2^31
    bytes the counter starts at [INT_MIN] and its first count down
    overflows. *)
Lemma encoders_total_fails :
  base64_encode_strict (long_run zero 2147483648) = None.
Proof.
  unfold base64_encode_strict. cbv zeta.
  rewrite long_run_length by lia.
  change (to_int 2147483648) with INT_MIN.
  now rewrite loop_strict_overflow.
Qed.

(** C9, as the code has it.  On an input of [n <= INT_MAX] bytes the
    output of [base64_encode] has [4 * ceiling (n / 3)] chars, a multiple
    of 4. *)
Theorem base64_length (input : std_string) :
  Z.of_nat (List.length input) <= INT_MAX ->
  let n := Z.of_nat (List.length input) in
  let len := Z.of_nat (List.length (base64_encode input)) in
  len = 4 * ceil_div n 3 /\
  3 * (ceil_div n 3 - 1) < n <= 3 * ceil_div n 3 /\
  len mod 4 = 0.
Proof.
  intro Hfit. cbv zeta.
  rewrite base64_encode_groups by (unfold INT_MAX in Hfit; lia).
  rewrite groups_length. unfold ceil_div.
  replace (Z.of_nat (List.length input) + 3 - 1)
    with (Z.of_nat (List.length input) + 2) by lia.
  pose proof (Nat2Z.is_nonneg (List.length input)).
  split; [reflexivity|]. split; [divlia|].
  rewrite Z.mul_comm. apply Z.mod_mul. lia.
Qed.

Lemma base64_length_witness :
  Z.of_nat (List.length (base64_encode (lit "hello world")))
  = 4 * ceil_div (Z.of_nat (List.length (lit "hello world"))) 3.
Proof.
  exact (proj1 (base64_length (lit "hello world")
                  ltac:(vm_compute; discriminate))).
Defined.

(** C9 as it is worded, for every input, fails: on 2^32 + 1 bytes the
    output has 4 chars, and [4 * ceiling (n / 3)] is 5726623064. *)
Lemma base64_length_fails :
  Z.of_nat (List.length (base64_encode (long_run "M" 4294967297))) = 4 /\
  4 * ceil_div (Z.of_nat (List.length (long_run "M" 4294967297))) 3
  = 5726623064.
Proof.
  rewrite base64_encode_long_M, long_run_length by lia.
  split; reflexivity.
Qed.

(** C10.  [url_encode] is injective on all byte strings, those with
    bytes above 127 included: [%] is not in the pass-through set, and a
    decoder gives every input back from its encoding. *)
Theorem url_encode_injective :
  passes "%" = false /\
  (forall str, url_decode (url_encode str) = Some str) /\
  (forall str str', url_encode str = url_encode str' -> str = str').
Proof.
  split; [reflexivity|]. split; [exact url_decode_encode|].
  intros str str' H. apply (f_equal url_decode) in H.
  rewrite !url_decode_encode in H. now injection H.
Qed.

Lemma url_encode_injective_witness :
  url_encode [char_of 200; "%"%char] = lit "%C8%25" /\
  [char_of 200; "%"%char] = [char_of 200; "%"%char].
Proof.
  split; [reflexivity|].
  exact (proj2 (proj2 url_encode_injective)
               [char_of 200; "%"%char] [char_of 200; "%"%char] eq_refl).
Defined.

End EncoderClaims.

(** * The claims on the compressor and the URL builder *)

Section PipelineClaims.
Import Base64 Url Zlib ZlibSpec Builder.
Context (E : ZlibEngine).

(** C1.  When both compressions succeed, [create_shareable_url e s] is
    the base URL, then [?e=] and the quote-wrapped [e] taken through
    compress, base64-encode and percent-encode, then [&s=] and the
    bracket-wrapped [s] taken through the same three stages; [e] goes
    between the two quotes as it is, nothing in it is escaped. *)
Theorem create_shareable_url_value
        (fuel : nat) (expression sizes compressed_expr compressed_sizes : std_string) :
  compress_data E fuel ([dquote] ++ expression ++ [dquote])
    = Some (Returned compressed_expr) ->
  compress_data E fuel (lit "[" ++ sizes ++ lit "]")
    = Some (Returned compressed_sizes) ->
  create_shareable_url E fuel expression sizes =
  Some (Returned (base_url
                  ++ lit "?e=" ++ url_encode (base64_encode compressed_expr)
                  ++ lit "&s=" ++ url_encode (base64_encode compressed_sizes))).
Proof.
  intros He Hs. unfold create_shareable_url.
  rewrite He. cbn [bind]. rewrite Hs. cbn [bind]. reflexivity.
Qed.

Context (C : ZlibContract E).

(** C5, as the code has it.  Under the zlib contract, [compress_data b]
    ends for every [b] of fewer than 2^32 bytes (the sizes the [uInt]
    [avail_in] holds), and what it returns is a gzip member (header and
    trailer, asked for by the 16 added to [windowBits]) that the gzip
    decoder takes back to exactly [b]. *)
Theorem compress_data_gzip (data : std_string) :
  Z.of_nat (List.length data) < 4294967296 ->
  (exists fuel0 r, forall fuel, (fuel0 <= fuel)%nat ->
     compress_data E fuel data = Some r) /\
  (forall fuel compressed,
     compress_data E fuel data = Some (Returned compressed) ->
     gzip_framed compressed = true /\ gunzip C compressed = Some data).
Proof.
  intro Hfit. split; [exact (compress_data_terminates E C data)|].
  intros fuel compressed H.
  destruct (compress_data_returned E C _ _ _ H) as (_ & Hf & Hg).
  split; [exact Hf|]. now rewrite Hg, given_all.
Qed.

(** C6, as the code has it.  Under the zlib contract, [compress_data]
    ends; it throws exactly when [deflateInit2] does not answer [Z_OK]
    or the deflate loop ends on a return code other than
    [Z_STREAM_END]; and when it returns, the loop ended on
    [Z_STREAM_END], the engine has consumed all the input it was given
    ([avail_in] is zero: zlib's word, the code does not test it), the
    value is the concatenation of the chunks the engine stored, call
    after call, and for [data] of fewer than 2^32 bytes the input given
    to the engine is all of [data]. *)
Theorem compress_data_outcome (data : std_string) :
  let rc := fst (init_call E) in
  let zs0 := set_input E (snd (init_call E)) data in
  (exists fuel0 r, forall fuel, (fuel0 <= fuel)%nat ->
     compress_data E fuel data = Some r) /\
  (forall fuel what,
     compress_data E fuel data = Some (Thrown what) <->
     (rc <> Z_OK /\ what = "deflateInit failed"%string) \/
     (rc = Z_OK /\ what = "compression failed"%string /\
      exists chunks ret zs,
        engine_run E fuel zs0 = Some (chunks, ret, zs) /\
        ret <> Z_STREAM_END)) /\
  (forall fuel compressed,
     compress_data E fuel data = Some (Returned compressed) ->
     rc = Z_OK /\
     exists chunks zs,
       engine_run E fuel zs0 = Some (chunks, Z_STREAM_END, zs) /\
       avail_in zs = 0 /\
       compressed = List.concat chunks) /\
  (Z.of_nat (List.length data) < 4294967296 ->
   firstn (Z.to_nat (avail_in zs0)) (next_in zs0) = data).
Proof.
  cbv zeta.
  split; [exact (compress_data_terminates E C data)|].
  split; [|split].
  - intros fuel what. rewrite (compress_data_run E C).
    destruct (init_call E) as [rc zs] eqn:I. cbn [fst snd].
    destruct (Z.eqb_spec rc Z_OK) as [Hok|Hnok]; cbn [negb].
    + destruct (engine_run E fuel (set_input E zs data))
        as [[[chunks ret] zs']|] eqn:R.
      * destruct (Z.eqb_spec ret Z_STREAM_END) as [Hend|Hnend]; cbn [negb].
        -- split; [intro H; discriminate H|].
           intros [[Hn _]|(_ & _ & chunks' & ret' & zs'' & H & Hn)];
             [contradiction|].
           injection H as <- <- <-. contradiction.
        -- split.
           ++ intro H. injection H as <-. right.
              split; [exact Hok|]. split; [reflexivity|].
              exists chunks, ret, zs'. split; [reflexivity | exact Hnend].
           ++ intros [[Hn _]|(_ & -> & _)]; [contradiction | reflexivity].
      * split; [intro H; discriminate H|].
        intros [[Hn _]|(_ & _ & chunks' & ret' & zs'' & H & _)];
          [contradiction | discriminate H].
    + split.
      * intro H. injection H as <-. left. split; [exact Hnok | reflexivity].
      * intros [[_ ->]|(Hok & _)]; [reflexivity | contradiction].
  - intros fuel compressed H. rewrite (compress_data_run E C) in H.
    destruct (init_call E) as [rc zs] eqn:I. cbn [fst snd].
    destruct (Z.eqb_spec rc Z_OK) as [Hok|Hnok]; cbn [negb] in H;
      [|discriminate H].
    destruct (engine_run E fuel (set_input E zs data))
      as [[[chunks ret] zs']|] eqn:R; [|discriminate H].
    destruct (Z.eqb_spec ret Z_STREAM_END) as [Hend|Hnend]; cbn [negb] in H;
      [|discriminate H].
    injection H as <-. subst ret. split; [exact Hok|].
    exists chunks, zs'. split; [reflexivity|].
    split; [|reflexivity].
    exact (proj2 (engine_run_end E C _ _ _ _ R)).
  - intro Hfit. cbn [set_input avail_in next_in]. now apply given_all.
Qed.


End PipelineClaims.

(** ** The claims at the reference engine *)

Section PipelineWitnesses.
Import Base64 Url Zlib ZlibSpec Builder RefEngine.

Lemma create_shareable_url_value_witness :
  create_shareable_url engine 2 (lit "a->a") (lit "2") =
  Some (Returned (lit
    "https://seriousseal.github.io/tensor_expressions_webapp/?e=H4sIAAAAAAACAyJhLT5hIgAAAAAGAAAA&s=H4sIAAAAAAACA1syXQAAAAADAAAA")).
Proof.
  exact (create_shareable_url_value engine 2 (lit "a->a") (lit "2")
           (member 31 ([dquote] ++ lit "a->a" ++ [dquote]))
           (member 31 (lit "[2]")) eq_refl eq_refl).
Defined.

Lemma compress_data_gzip_witness :
  Z.of_nat (List.length (lit "a->a")) < 4294967296 /\
  gzip_framed (member 31 (lit "a->a")) = true /\
  ref_gunzip (member 31 (lit "a->a")) = Some (lit "a->a").
Proof.
  assert (F : Z.of_nat (List.length (lit "a->a")) < 4294967296)
    by reflexivity.
  split; [exact F|].
  exact (proj2 (compress_data_gzip engine ref_contract (lit "a->a") F)
               1%nat (member 31 (lit "a->a")) eq_refl).
Defined.

(** C5 as it is worded, for every byte sequence, fails: of 2^32 + 4
    bytes the engine is given 4, and what is returned decodes to these
    4 bytes. *)
Lemma compress_data_gzip_fails :
  compress_data engine 1 (long_run zero 4294967300)
  = Some (Returned (member 31 (repeat zero 4))) /\
  gunzip ref_contract (member 31 (repeat zero 4)) = Some (repeat zero 4) /\
  repeat zero 4 <> long_run zero 4294967300.
Proof.
  split; [|split; [reflexivity|]].
  - pose proof (ref_compress_data (long_run zero 4294967300)) as H.
    cbv zeta in H. rewrite long_run_length in H by lia.
    replace (to_uInt 4294967300) with 4 in H by reflexivity.
    change (Z.to_nat 4) with 4%nat in H.
    rewrite firstn_long_run in H by lia.
    apply H. reflexivity.
  - intro H. apply (f_equal (fun l => Z.of_nat (List.length l))) in H.
    rewrite long_run_length in H by lia. discriminate H.
Qed.

Lemma compress_data_outcome_witness :
  (exists chunks zs,
     engine_run engine 1
       (set_input engine (snd (init_call engine)) (lit "a->a"))
     = Some (chunks, Z_STREAM_END, zs) /\
     avail_in zs = 0 /\
     member 31 (lit "a->a") = List.concat chunks) /\
  firstn (Z.to_nat (avail_in (set_input engine (snd (init_call engine))
                                        (lit "a->a"))))
         (next_in (set_input engine (snd (init_call engine)) (lit "a->a")))
  = lit "a->a".
Proof.
  split.
  - exact (proj2 (proj1 (proj2 (proj2 (compress_data_outcome engine
                                         ref_contract (lit "a->a"))))
                        1%nat (member 31 (lit "a->a")) eq_refl)).
  - exact (proj2 (proj2 (proj2 (compress_data_outcome engine ref_contract
                                  (lit "a->a"))))
                 eq_refl).
Defined.

(** C6 as it is worded, all input consumed on every return, fails: on
    2^32 + 4 bytes [compress_data] returns, and the engine was given 4
    bytes. *)
Lemma compress_data_outcome_fails :
  compress_data engine 1 (long_run zero 4294967300)
  = Some (Returned (member 31 (repeat zero 4))) /\
  avail_in (set_input engine (snd (init_call engine))
                      (long_run zero 4294967300)) = 4 /\
  Z.of_nat (List.length (long_run zero 4294967300)) = 4294967300.
Proof.
  split; [|split].
  - pose proof (ref_compress_data (long_run zero 4294967300)) as H.
    cbv zeta in H. rewrite long_run_length in H by lia.
    replace (to_uInt 4294967300) with 4 in H by reflexivity.
    change (Z.to_nat 4) with 4%nat in H.
    rewrite firstn_long_run in H by lia.
    apply H. reflexivity.
  - cbn [set_input avail_in]. rewrite long_run_length by lia. reflexivity.
  - apply long_run_length. lia.
Qed.


(** An input of 40000 bytes takes two turns of the loop, of 32768 bytes
    and of the 7250 bytes that remain; one turn is not enough. *)
Example compress_data_two_chunks :
  let data := repeat "a"%char (Z.to_nat 40000) in
  let zs0 := set_input engine (snd (init_call engine)) data in
  match compress_data engine 1 data, compress_data engine 2 data,
        engine_run engine 2 zs0 with
  | None, Some (Returned compressed), Some (chunks, ret, _) =>
    (if list_eq_dec ascii_dec compressed (member 31 data) then true else false)
    && (if list_eq_dec Z.eq_dec
             (map (fun w => Z.of_nat (List.length w)) chunks) [32768; 7250]
        then true else false)
    && (ret =? Z_STREAM_END)
  | _, _, _ => false
  end = true.
Proof. vm_compute. reflexivity. Qed.

End PipelineWitnesses.

(** * Further properties of the two encoders *)

Section EncoderExtras.
Import Base64 Base64Spec Base64Decode Url UrlSpec Transport.

Lemma encode_one_length c :
  List.length (encode_one c) = if passes c then 1%nat else 3%nat.
Proof.
  rewrite passes_unreserved. unfold encode_one.
  destruct (unreserved c); reflexivity.
Qed.

Lemma url_encode_length_escaped str :
  List.length (url_encode str)
  = (List.length str
     + 2 * List.length (filter (fun c => negb (passes c)) str))%nat.
Proof.
  induction str as [|c str IH]; [reflexivity|].
  rewrite url_encode_cons, length_app, IH, encode_one_length.
  cbn [filter List.length]. destruct (passes c); cbn [negb List.length]; lia.
Qed.

Lemma filter_none (A : Type) (f : A -> bool) (l : list A) :
  List.length (filter (fun x => negb (f x)) l) = 0%nat -> forallb f l = true.
Proof.
  induction l as [|x l IH]; [reflexivity|].
  cbn [filter forallb]. destruct (f x); cbn [List.length negb andb].
  - exact IH.
  - discriminate.
Qed.

(** X1.  [url_encode] gives its input back unchanged exactly when every
    char of the input passes the test of line 103. *)
Theorem url_encode_passthrough (str : std_string) :
  url_encode str = str <-> forallb passes str = true.
Proof.
  split.
  - intro H. apply (f_equal (@List.length ascii)) in H.
    rewrite url_encode_length_escaped in H.
    assert (H0 : List.length (filter (fun c => negb (passes c)) str) = 0%nat)
      by lia.
    now apply filter_none in H0.
  - induction str as [|c str IH]; [reflexivity|].
    cbn [forallb]. intro H. apply andb_prop in H. destruct H as [Hc Hs].
    rewrite url_encode_cons, (IH Hs). unfold encode_one.
    now rewrite <- passes_unreserved, Hc.
Qed.

Lemma url_encode_passthrough_witness :
  url_encode (lit "Az09-_.~") = lit "Az09-_.~".
Proof.
  exact (proj2 (url_encode_passthrough (lit "Az09-_.~")) eq_refl).
Defined.

(** X2.  The output of [url_encode] has the length of the input plus 2
    for every char that does not pass; so between one and three times
    the length of the input. *)
Theorem url_encode_length (str : std_string) :
  let escaped := List.length (filter (fun c => negb (passes c)) str) in
  (List.length (url_encode str) = List.length str + 2 * escaped)%nat /\
  (List.length str <= List.length (url_encode str) <= 3 * List.length str)%nat.
Proof.
  cbv zeta. rewrite url_encode_length_escaped.
  pose proof (filter_length_le (fun c => negb (passes c)) str).
  lia.
Qed.

(** X3.  [url_encode] of a concatenation is the concatenation of the
    encodings: a text can be encoded piece by piece, cut anywhere. *)
Theorem url_encode_app (str str' : std_string) :
  url_encode (str ++ str') = url_encode str ++ url_encode str'.
Proof. rewrite !url_encode_flat. apply flat_map_app. Qed.

Lemma decode_misaligned p : forall q,
  (List.length p mod 3 <> 0)%nat -> q <> [] ->
  base64_decode (groups p ++ groups q) = None.
Proof.
  induction p as [|a|a b|a b c p IH] using list_ind3; intros q Hp Hq.
  - now elim Hp.
  - destruct (groups q) as [|g gs] eqn:G; [now apply groups_nil in G|].
    cbn [groups]. rewrite tail1_eq. cbn [app base64_decode].
    destruct (slice_bounds a a a) as (H0 & _ & H1 & _).
    unfold decode_full. rewrite !value_of_sym by assumption. reflexivity.
  - destruct (groups q) as [|g gs] eqn:G; [now apply groups_nil in G|].
    cbn [groups]. rewrite tail2_eq. cbn [app base64_decode].
    destruct (slice_bounds a b b) as (H0 & H1 & _ & _ & H2 & _).
    unfold decode_full. rewrite !value_of_sym by assumption. reflexivity.
  - assert (Hp' : (List.length p mod 3 <> 0)%nat).
    { cbn [List.length] in Hp.
      replace (S (S (S (List.length p))))
        with (List.length p + 1 * 3)%nat in Hp by lia.
      now rewrite Nat.Div0.mod_add in Hp. }
    cbn [groups]. rewrite quad_eq. cbn [app base64_decode].
    specialize (IH q Hp' Hq).
    destruct (groups p ++ groups q) as [|g gs] eqn:G.
    + apply app_eq_nil in G. destruct G as [_ G].
      now apply groups_nil in G.
    + rewrite decode_full_quad, IH. reflexivity.
Qed.

(** X4.  For [p ++ q] of at most [INT_MAX] bytes and a non-empty [q],
    the encoding of [p ++ q] is the encoding of [p] followed by the
    encoding of [q] exactly when the length of [p] is a multiple of 3:
    off a group boundary the padding of [p] would sit in the middle. *)
Theorem base64_encode_app (p q : std_string) :
  Z.of_nat (List.length (p ++ q)) <= INT_MAX ->
  q <> [] ->
  (base64_encode (p ++ q) = base64_encode p ++ base64_encode q
   <-> (List.length p mod 3 = 0)%nat).
Proof.
  intros Hfit Hq. rewrite length_app in Hfit. unfold INT_MAX in Hfit.
  rewrite !base64_encode_groups by (rewrite ?length_app; lia). split.
  - intro H. destruct (Nat.eq_dec (List.length p mod 3) 0) as [E|E];
      [exact E|].
    apply (f_equal base64_decode) in H.
    rewrite decode_groups, (decode_misaligned p q E Hq) in H.
    discriminate H.
  - apply groups_app.
Qed.

Lemma base64_encode_app_witness :
  base64_encode (lit "Man" ++ lit "Ma")
  = base64_encode (lit "Man") ++ base64_encode (lit "Ma").
Proof.
  exact (proj2 (base64_encode_app (lit "Man") (lit "Ma")
                  ltac:(vm_compute; discriminate) ltac:(discriminate))
               eq_refl).
Defined.

Lemma pad_count_step n : pad_count (S (S (S n))) = pad_count n.
Proof.
  unfold pad_count. replace (S (S (S n))) with (n + 1 * 3)%nat by lia.
  now rewrite Nat.Div0.mod_add.
Qed.

Lemma groups_pad_at_end (input : std_string) :
  exists body,
    groups input = body ++ repeat pad (pad_count (List.length input)) /\
    Forall (fun c => In c base64_chars) body.
Proof.
  induction input as [|a|a b|a b c l IH] using list_ind3.
  - exists []. split; [reflexivity | constructor].
  - destruct (slice_bounds a a a) as (H0 & _ & H1 & _).
    exists [sym (uchar a / 4); sym (uchar a mod 4 * 16)].
    split; [cbn [groups]; now rewrite tail1_eq|].
    repeat (apply Forall_cons; [now apply sym_in|]). constructor.
  - destruct (slice_bounds a b b) as (H0 & H1 & _ & _ & H2 & _).
    exists [sym (uchar a / 4); sym (uchar a mod 4 * 16 + uchar b / 16);
            sym (uchar b mod 16 * 4)].
    split; [cbn [groups]; now rewrite tail2_eq|].
    repeat (apply Forall_cons; [now apply sym_in|]). constructor.
  - destruct IH as (body & Hb & Hf).
    destruct (slice_bounds a b c) as (H0 & H1 & _ & H2 & _ & H3).
    exists (quad a b c ++ body). split.
    + cbn [groups List.length]. rewrite pad_count_step, Hb.
      now rewrite app_assoc.
    + apply Forall_app. split; [|exact Hf]. rewrite quad_eq.
      repeat (apply Forall_cons; [now apply sym_in|]). constructor.
Qed.

(** X5.  For an input of [n <= INT_MAX] bytes, the pad chars of the
    output are all at its end, and there are [(3 - n mod 3) mod 3] of
    them: the output is a run of chars of the alphabet followed by that
    many [=]. *)
Theorem base64_pad_at_end (input : std_string) :
  Z.of_nat (List.length input) <= INT_MAX ->
  exists body,
    base64_encode input = body ++ repeat pad (pad_count (List.length input)) /\
    Forall (fun c => In c base64_chars) body.
Proof.
  intro Hfit.
  rewrite base64_encode_groups by (unfold INT_MAX in Hfit; lia).
  apply groups_pad_at_end.
Qed.

Lemma base64_pad_at_end_witness :
  exists body,
    base64_encode (lit "Ma")
    = body ++ repeat pad (pad_count (List.length (lit "Ma"))) /\
    Forall (fun c => In c base64_chars) body.
Proof.
  exact (base64_pad_at_end (lit "Ma") ltac:(vm_compute; discriminate)).
Defined.

Lemma alphabet_seven_bit c :
  In c base64_chars \/ c = pad -> 0 <= char_to_int c < 128.
Proof.
  intro H.
  assert (Hin : In c (pad :: base64_chars))
    by (destruct H as [H| ->]; [now right | now left]).
  assert (F : forallb (fun c => (0 <=? char_to_int c) && (char_to_int c <? 128))
                      (pad :: base64_chars) = true) by reflexivity.
  rewrite forallb_forall in F. specialize (F c Hin).
  apply andb_prop in F. destruct F as [F1 F2].
  apply Z.leb_le in F1. apply Z.ltb_lt in F2. lia.
Qed.

(** X6.  Every char of an output of [base64_encode] is 7-bit: promoted
    to [int] it is in [0, 128).  So in [create_shareable_url], where
    [url_encode] runs on base64 text, [isalnum] never gets a negative
    argument. *)
Theorem base64_seven_bit (input : std_string) :
  Forall (fun c => 0 <= char_to_int c < 128) (base64_encode input).
Proof.
  rewrite base64_encode_read.
  eapply Forall_impl; [|apply groups_alphabet].
  intros c H. now apply alphabet_seven_bit.
Qed.

Lemma alphabet_escape c :
  In c base64_chars \/ c = pad -> encode_one c = b64_escape c.
Proof.
  intro H.
  assert (Hin : In c (pad :: base64_chars))
    by (destruct H as [H| ->]; [now right | now left]).
  assert (F : forallb
                (fun c => if list_eq_dec ascii_dec (encode_one c) (b64_escape c)
                          then true else false)
                (pad :: base64_chars) = true) by reflexivity.
  rewrite forallb_forall in F. specialize (F c Hin).
  now destruct (list_eq_dec ascii_dec (encode_one c) (b64_escape c)).
Qed.

(** X7.  On base64 text [url_encode] changes three chars only: [+]
    becomes [%2B], [/] becomes [%2F], [=] becomes [%3D]; letters and
    digits stay. *)
Theorem url_encode_base64 (input : std_string) :
  url_encode (base64_encode input) = flat_map b64_escape (base64_encode input).
Proof.
  rewrite url_encode_flat, base64_encode_read.
  pose proof (groups_alphabet (bytes_read input)) as F.
  induction F as [|c l Hc F IH]; [reflexivity|].
  cbn [flat_map]. now rewrite IH, (alphabet_escape c Hc).
Qed.

(** X8.  Percent-decoding then base64-decoding the text
    [url_encode (base64_encode b)] gives [b] back, for every byte
    sequence [b] of at most [INT_MAX] bytes. *)
Theorem text_round_trip (b : std_string) :
  Z.of_nat (List.length b) <= INT_MAX ->
  text_decode (url_encode (base64_encode b)) = Some b.
Proof.
  intro Hfit. unfold text_decode.
  rewrite url_decode_encode, base64_encode_groups
    by (unfold INT_MAX in Hfit; lia).
  apply decode_groups.
Qed.

Lemma text_round_trip_witness :
  text_decode (url_encode (base64_encode (lit "a+b/c=")))
  = Some (lit "a+b/c=").
Proof.
  exact (text_round_trip (lit "a+b/c=") ltac:(vm_compute; discriminate)).
Defined.

(** X9.  The output of [base64_encode] does not depend on what the two
    uninitialised arrays hold when the loop starts. *)
Theorem base64_arrays_immaterial (a3 a4 : array) (input : std_string) :
  List.length a3 = 3%nat -> List.length a4 = 4%nat ->
  flush (loop input (to_int (Z.of_nat (List.length input)))
              (mk_loop_state 0 a3 a4 []))
  = base64_encode input.
Proof.
  intros H3 H4.
  destruct a3 as [|x [|y [|z [|]]]]; try discriminate H3.
  destruct a4 as [|p [|q [|s [|t [|]]]]]; try discriminate H4.
  unfold base64_encode, init_state. cbv zeta.
  pose proof (Nat2Z.is_nonneg (List.length input)) as Hn.
  rewrite !loop_feed
    by (first [apply to_int_range | rewrite to_int_mod; divlia]).
  now rewrite !flush_groups.
Qed.

Lemma base64_arrays_immaterial_witness :
  flush (loop (lit "Ma") (to_int (Z.of_nat (List.length (lit "Ma"))))
              (mk_loop_state 0 [255; 7; 99] [1; 2; 3; 200] []))
  = base64_encode (lit "Ma").
Proof.
  exact (base64_arrays_immaterial [255; 7; 99] [1; 2; 3; 200] (lit "Ma")
           eq_refl eq_refl).
Defined.

End EncoderExtras.

(** * Further properties of the compressor, the builder and the program *)

Section UrlShape.
Import Base64 Url UrlSpec Zlib Builder.

Lemma count_safe (x : ascii) (l : std_string) :
  unreserved x = false -> x <> "%"%char ->
  Forall (fun d => unreserved d = true \/ d = "%"%char) l ->
  count_occ ascii_dec l x = 0%nat.
Proof.
  intros Hx Hp F. induction F as [|d l Hd F IH]; [reflexivity|].
  cbn [count_occ]. destruct (ascii_dec d x) as [->|_]; [|exact IH].
  destruct Hd as [Hd|Hd]; [congruence | contradiction].
Qed.

(** A returned URL, from the two compressed payloads. *)
Lemma create_shareable_url_returned (E : ZlibEngine) fuel expression sizes url :
  create_shareable_url E fuel expression sizes = Some (Returned url) ->
  exists compressed_expr compressed_sizes,
    compress_data E fuel ([dquote] ++ expression ++ [dquote])
      = Some (Returned compressed_expr) /\
    compress_data E fuel (lit "[" ++ sizes ++ lit "]")
      = Some (Returned compressed_sizes) /\
    url = (base_url ++ lit "?e=")
          ++ url_encode (base64_encode compressed_expr)
          ++ lit "&s=" ++ url_encode (base64_encode compressed_sizes).
Proof.
  unfold create_shareable_url. intro H.
  destruct (compress_data E fuel ([dquote] ++ expression ++ [dquote]))
    as [[ce|w1]|]; cbn [bind] in H; try discriminate H.
  destruct (compress_data E fuel (lit "[" ++ sizes ++ lit "]"))
    as [[cs|w2]|]; cbn [bind] in H; try discriminate H.
  exists ce, cs. split; [reflexivity|]. split; [reflexivity|].
  apply (f_equal (fun o => match o with
                           | Some (Returned u) => u
                           | _ => []
                           end)) in H.
  cbv beta iota in H. rewrite <- H. reflexivity.
Qed.

(** X10.  A URL that [create_shareable_url] returns holds exactly one
    [?], one [&] and two [=]: the two encoded segments hold none of
    them, so the URL splits at its separators in one way only. *)
Theorem url_separators (E : ZlibEngine) (fuel : nat)
        (expression sizes url : std_string) :
  create_shareable_url E fuel expression sizes = Some (Returned url) ->
  count_occ ascii_dec url "?"%char = 1%nat /\
  count_occ ascii_dec url "&"%char = 1%nat /\
  count_occ ascii_dec url "="%char = 2%nat.
Proof.
  intro H.
  destruct (create_shareable_url_returned _ _ _ _ _ H)
    as (ce & cs & _ & _ & ->).
  pose proof (url_encode_safe (base64_encode ce)) as Fe.
  pose proof (url_encode_safe (base64_encode cs)) as Fs.
  assert (S : forall x l, unreserved x = false -> x <> "%"%char ->
            Forall (fun d => unreserved d = true \/ d = "%"%char) l ->
            forall pre mid,
              count_occ ascii_dec (pre ++ l ++ mid ++ url_encode (base64_encode cs)) x
              = (count_occ ascii_dec pre x + count_occ ascii_dec mid x)%nat).
  { intros x l Hx Hp F pre mid. rewrite !count_occ_app.
    rewrite (count_safe x l Hx Hp F), (count_safe x _ Hx Hp Fs). lia. }
  split; [|split].
  - now rewrite (S "?"%char _ eq_refl ltac:(discriminate) Fe).
  - now rewrite (S "&"%char _ eq_refl ltac:(discriminate) Fe).
  - now rewrite (S "="%char _ eq_refl ltac:(discriminate) Fe).
Qed.

End UrlShape.

Section PipelineExtras.
Import Base64 Url Zlib ZlibSpec Builder Transport Program.
Context (E : ZlibEngine) (C : ZlibContract E).

(** X11.  Under the zlib contract the result of the deflate loop does
    not depend on what the output buffer holds when the loop starts: no
    byte left in the buffer reaches [compressed]. *)
Theorem outbuffer_immaterial (fuel : nat) (zs : stream_of E)
        (outbuffer outbuffer' compressed : std_string) :
  total_out zs = Z.of_nat (List.length compressed) ->
  deflate_loop E fuel zs outbuffer compressed
  = deflate_loop E fuel zs outbuffer' compressed.
Proof.
  intro H. now rewrite !(deflate_loop_run E C) by exact H.
Qed.

(** Each turn that answers [Z_OK] takes a full buffer off what is owed. *)
Lemma engine_run_within fuel : forall zs,
  Z.of_nat (List.length (pending C zs)) < outbuffer_size * Z.of_nat fuel ->
  exists r, engine_run E fuel zs = Some r.
Proof.
  induction fuel as [|fuel IH]; intros zs Hlt; [lia|].
  cbn [engine_run].
  destruct (deflate E (set_output E zs outbuffer_size) Z_FINISH)
    as [[ret written] zs1] eqn:D.
  destruct (Z.eqb_spec ret Z_OK) as [Hok|Hnok]; [|eauto].
  pose proof (deflate_ok E C _ _ _ _ D Hok) as Hfull.
  cbn [set_output avail_out] in Hfull.
  pose proof (deflate_stream E C _ _ _ _ D (or_introl Hok)) as Hs.
  rewrite pending_set_output in Hs.
  apply (f_equal (fun l => Z.of_nat (List.length l))) in Hs.
  rewrite length_app, Nat2Z.inj_add, Hfull in Hs.
  destruct (IH zs1) as [[[chunks last] zs2] R]; [lia|].
  rewrite R. eauto.
Qed.

(** X12.  Under the zlib contract, a result of [N] bytes is reached
    within [N / 32768 + 1] turns of the deflate loop: any bound [fuel]
    with [N < 32768 * fuel] is enough. *)
Theorem deflate_turns (fuel0 fuel : nat) (data compressed : std_string) :
  compress_data E fuel0 data = Some (Returned compressed) ->
  Z.of_nat (List.length compressed) < outbuffer_size * Z.of_nat fuel ->
  compress_data E fuel data = Some (Returned compressed).
Proof.
  intros H Hlt.
  destruct (compress_data_returned E C _ _ _ H) as [Hp _].
  rewrite (compress_data_run E C) in H |- *.
  destruct (init_call E) as [rc zs] eqn:I. cbn [snd] in Hp.
  destruct (negb (rc =? Z_OK)); [discriminate H|].
  destruct (engine_run E fuel0 (set_input E zs data)) as [r0|] eqn:R0;
    [|discriminate H].
  destruct (engine_run_within fuel (set_input E zs data)) as [r R];
    [now rewrite <- Hp|].
  pose proof (engine_run_more E _ _ _ R0 (Nat.max fuel0 fuel)
                (Nat.le_max_l _ _)) as M0.
  pose proof (engine_run_more E _ _ _ R (Nat.max fuel0 fuel)
                (Nat.le_max_r _ _)) as M.
  rewrite M0 in M. injection M as <-. rewrite R. exact H.
Qed.

(** X13.  Under the zlib contract, when the two wrapped strings have
    fewer than 2^32 bytes and compress to at most [INT_MAX] bytes each,
    [create_shareable_url] returns the base URL, [?e=], a segment,
    [&s=], a segment, and the receiver's way back (percent-decode,
    base64-decode, gunzip) takes the first segment to the expression
    between two quotes and the second to the sizes between brackets. *)
Theorem url_round_trip (fuel : nat)
        (expression sizes compressed_expr compressed_sizes : std_string) :
  let json_expr := [dquote] ++ expression ++ [dquote] in
  let json_sizes := lit "[" ++ sizes ++ lit "]" in
  let e_segment := url_encode (base64_encode compressed_expr) in
  let s_segment := url_encode (base64_encode compressed_sizes) in
  compress_data E fuel json_expr = Some (Returned compressed_expr) ->
  compress_data E fuel json_sizes = Some (Returned compressed_sizes) ->
  Z.of_nat (List.length json_expr) < 4294967296 ->
  Z.of_nat (List.length json_sizes) < 4294967296 ->
  Z.of_nat (List.length compressed_expr) <= INT_MAX ->
  Z.of_nat (List.length compressed_sizes) <= INT_MAX ->
  create_shareable_url E fuel expression sizes
  = Some (Returned (base_url ++ lit "?e=" ++ e_segment
                    ++ lit "&s=" ++ s_segment)) /\
  segment_decode C e_segment = Some json_expr /\
  segment_decode C s_segment = Some json_sizes.
Proof.
  cbv zeta. intros He Hs Le Ls Lce Lcs. split; [|split].
  - unfold create_shareable_url. rewrite He. cbn [bind]. rewrite Hs.
    cbn [bind]. reflexivity.
  - unfold segment_decode. rewrite text_round_trip by exact Lce.
    destruct (compress_data_returned E C _ _ _ He) as (_ & _ & Hg).
    now rewrite Hg, given_all.
  - unfold segment_decode. rewrite text_round_trip by exact Lcs.
    destruct (compress_data_returned E C _ _ _ Hs) as (_ & _ & Hg).
    now rewrite Hg, given_all.
Qed.

Lemma compress_data_thrown fuel data what :
  compress_data E fuel data = Some (Thrown what) ->
  what = "deflateInit failed"%string \/ what = "compression failed"%string.
Proof.
  intro H. rewrite (compress_data_run E C) in H.
  destruct (init_call E) as [rc zs].
  destruct (negb (rc =? Z_OK)); [injection H as <-; now left|].
  destruct (engine_run E fuel (set_input E zs data))
    as [[[chunks ret] zs']|]; [|discriminate H].
  destruct (negb (ret =? Z_STREAM_END)); [|discriminate H].
  injection H as <-. now right.
Qed.

Lemma create_shareable_url_terminates expression sizes :
  exists fuel0 r, forall fuel, (fuel0 <= fuel)%nat ->
    create_shareable_url E fuel expression sizes = Some r.
Proof.
  destruct (compress_data_terminates E C ([dquote] ++ expression ++ [dquote]))
    as (f1 & r1 & H1).
  destruct (compress_data_terminates E C (lit "[" ++ sizes ++ lit "]"))
    as (f2 & r2 & H2).
  exists (Nat.max f1 f2).
  destruct r1 as [ce|w1].
  - destruct r2 as [cs|w2]; eexists; intros fuel Hle;
      unfold create_shareable_url; rewrite H1, H2 by lia; cbn [bind];
      reflexivity.
  - eexists. intros fuel Hle. unfold create_shareable_url.
    rewrite H1 by lia. cbn [bind]. reflexivity.
Qed.

(** X14.  Under the zlib contract [main] ends, in one of two ways:
    exit status 0, nothing on standard error and one line
    [Shareable URL: <url>] on standard output, where [<url>] is what
    [create_shareable_url] returned; or exit status 1, nothing on
    standard output and on standard error the line
    [Error: deflateInit failed] or [Error: compression failed]. *)
Theorem main_outcome :
  (exists fuel0 r, forall fuel, (fuel0 <= fuel)%nat -> main E fuel = Some r) /\
  (forall fuel r, main E fuel = Some r ->
     (status r = 0 /\ err r = [] /\
      exists url,
        create_shareable_url E fuel expression index_sizes
          = Some (Returned url) /\
        out r = lit "Shareable URL: " ++ url ++ endl) \/
     (status r = 1 /\ out r = [] /\
      (err r = lit "Error: deflateInit failed" ++ endl \/
       err r = lit "Error: compression failed" ++ endl))).
Proof.
  split.
  - destruct (create_shareable_url_terminates expression index_sizes)
      as (fuel0 & r & H).
    exists fuel0.
    exists (match r with
            | Returned url => mk_run (lit "Shareable URL: " ++ url ++ endl) [] 0
            | Thrown what => mk_run [] (lit "Error: " ++ lit what ++ endl) 1
            end).
    intros fuel Hle. unfold main. rewrite (H fuel Hle).
    destruct r; reflexivity.
  - intros fuel r H. unfold main in H.
    destruct (create_shareable_url E fuel expression index_sizes)
      as [[url|what]|] eqn:U; [| |discriminate H]; injection H as <-.
    + left. cbn [status err out]. repeat split. now exists url.
    + right. cbn [status err out]. repeat split.
      unfold create_shareable_url in U.
      destruct (compress_data E fuel ([dquote] ++ expression ++ [dquote]))
        as [[ce|w1]|] eqn:He; cbn [bind] in U; try discriminate U.
      * destruct (compress_data E fuel (lit "[" ++ index_sizes ++ lit "]"))
          as [[cs|w2]|] eqn:Hs; cbn [bind] in U; try discriminate U.
        injection U as <-.
        destruct (compress_data_thrown _ _ _ Hs) as [-> | ->];
          [now left | now right].
      * injection U as <-.
        destruct (compress_data_thrown _ _ _ He) as [-> | ->];
          [now left | now right].
Qed.

End PipelineExtras.

(** ** The further properties at the reference engine *)

Section ExtrasWitnesses.
Import Base64 Url Zlib ZlibSpec Builder Transport Program RefEngine.

Lemma url_separators_witness :
  count_occ ascii_dec
    (lit "https://seriousseal.github.io/tensor_expressions_webapp/?e=H4sIAAAAAAACAyJhLT5hIgAAAAAGAAAA&s=H4sIAAAAAAACA1syXQAAAAADAAAA")
    "?"%char = 1%nat.
Proof.
  exact (proj1 (url_separators engine 1 (lit "a->a") (lit "2") _ eq_refl)).
Defined.

Lemma outbuffer_immaterial_witness :
  let zs := set_input engine (snd (init_call engine)) (lit "a->a") in
  deflate_loop engine 1 zs (lit "stale bytes") []
  = deflate_loop engine 1 zs [] [].
Proof.
  exact (outbuffer_immaterial engine ref_contract 1
           (set_input engine (snd (init_call engine)) (lit "a->a"))
           (lit "stale bytes") [] [] eq_refl).
Defined.

Lemma deflate_turns_witness :
  compress_data engine 3 (lit "a->a")
  = Some (Returned (member 31 (lit "a->a"))).
Proof.
  exact (deflate_turns engine ref_contract 1 3 (lit "a->a")
           (member 31 (lit "a->a")) eq_refl eq_refl).
Defined.

Lemma url_round_trip_witness :
  create_shareable_url engine 1 (lit "a->a") (lit "2")
  = Some (Returned
      (base_url ++ lit "?e="
       ++ url_encode (base64_encode (member 31 ([dquote] ++ lit "a->a" ++ [dquote])))
       ++ lit "&s=" ++ url_encode (base64_encode (member 31 (lit "[2]"))))) /\
  segment_decode ref_contract
    (url_encode (base64_encode (member 31 ([dquote] ++ lit "a->a" ++ [dquote]))))
  = Some ([dquote] ++ lit "a->a" ++ [dquote]) /\
  segment_decode ref_contract
    (url_encode (base64_encode (member 31 (lit "[2]"))))
  = Some (lit "[" ++ lit "2" ++ lit "]").
Proof.
  exact (url_round_trip engine ref_contract 1 (lit "a->a") (lit "2")
           (member 31 ([dquote] ++ lit "a->a" ++ [dquote]))
           (member 31 (lit "[2]"))
           eq_refl eq_refl eq_refl eq_refl
           ltac:(vm_compute; discriminate) ltac:(vm_compute; discriminate)).
Defined.

Lemma main_outcome_witness :
  exists fuel0 r, forall fuel, (fuel0 <= fuel)%nat -> main engine fuel = Some r.
Proof.
  exact (proj1 (main_outcome engine ref_contract)).
Defined.

End ExtrasWitnesses.
